(** * PulseRadar: endpoint trust scoring and evaluator reputation

    A shallow embedding of the scoring code of PulseRadar
    ([lib/testing.ts], [lib/trust-score.ts]) and of the two internal
    handlers of [src/index.ts] that store predictions and discrepancies
    ([handleAgentPrediction], [handleAgentDiscrepancy]), run against the
    tables of [migrations/0004_evaluation_predictions.sql] and
    [migrations/0005_evaluator_reputation.sql] with their NOT NULL and
    foreign-key constraints; further on, of the saving of tests and
    scores, of the payment gate with the two read handlers
    [handleTrustScore] and [handleCompare], and of the de-duplication and
    saving of [lib/discovery.ts].

    Numbers.  A JavaScript [number] is modelled as an exact rational [Q];
    results are compared with [==] ([Qeq]).  Counters and timestamps that the
    schema declares INTEGER are [Z].  Rounding error of IEEE doubles is out of
    the model: every statement below is about the arithmetic the code
    writes down, carried out exactly. *)

From Stdlib Require Import QArith Qround Qminmax Lqa.
From Stdlib Require Import ZArith Lia List String Bool.
Import ListNotations.
Open Scope string_scope.
Open Scope Q_scope.

(** ** JavaScript numbers and truthiness *)

Module JS.

(** [x >= y] and [x < y] on numbers. *)
Definition geb (x y : Q) : bool := Qle_bool y x.
Definition ltb (x y : Q) : bool := negb (Qle_bool y x).

(** [Math.round]: nearest integer, halves go up. *)
Definition round (x : Q) : Q := inject_Z (Qfloor (x + (1 # 2))).

(** [Math.round(x * 10) / 10]. *)
Definition round1 (x : Q) : Q := round (x * 10) / 10.

(** [xs.length] as a number. *)
Definition length {A : Type} (xs : list A) : Q :=
  inject_Z (Z.of_nat (List.length xs)).

(** Truthiness of an optional number: [undefined], [null] and [0] are
    falsy. *)
Definition truthy_num (x : option Q) : bool :=
  match x with
  | Some q => negb (Qeq_bool q 0)
  | None => false
  end.

(** Truthiness of an optional string: [undefined], [null] and the empty
    string are falsy. *)
Definition truthy_str (x : option string) : bool :=
  match x with
  | Some EmptyString => false
  | Some _ => true
  | None => false
  end.

(** [x || 0] on an optional number. *)
Definition or_zero (x : option Q) : Q :=
  match x with
  | Some q => if Qeq_bool q 0 then 0 else q
  | None => 0
  end.

End JS.

(** ** [lib/testing.ts]: test records and their aggregates *)

Record EndpointTest : Type := mkEndpointTest {
  endpoint_id : Z;
  test_timestamp : Z;
  status_code : option Z;
  response_time_ms : option Q;
  is_successful : bool;
  error_message : option string;
  response_sample : option string
}.

(** [calculateUptime]. *)
Definition calculateUptime (tests : list EndpointTest) : Q :=
  match tests with
  | [] => 0
  | _ =>
      let successful := JS.length (filter is_successful tests) in
      (successful / JS.length tests) * 100
  end.

(** [calculateAvgResponseTime]. *)
Definition calculateAvgResponseTime (tests : list EndpointTest) : Q :=
  let successfulTests :=
    filter (fun t => is_successful t && JS.truthy_num (response_time_ms t))
           tests in
  match successfulTests with
  | [] => 0
  | _ =>
      let total :=
        fold_left (fun sum t => sum + JS.or_zero (response_time_ms t))
                  successfulTests 0 in
      total / JS.length successfulTests
  end.

(** ** [lib/trust-score.ts]: sub-scores, composite, grade, recommendation *)

Definition calculateUptimeScore (uptimePercent : Q) : Q :=
  if JS.geb uptimePercent 99 then 95 + (uptimePercent - 99) * 5
  else if JS.geb uptimePercent 95 then 85 + ((uptimePercent - 95) / 4) * 10
  else if JS.geb uptimePercent 90 then 70 + ((uptimePercent - 90) / 5) * 15
  else if JS.geb uptimePercent 80 then 50 + ((uptimePercent - 80) / 10) * 20
  else (uptimePercent / 80) * 50.

Definition calculateSpeedScore (avgResponseTimeMs : Q) : Q :=
  if JS.ltb avgResponseTimeMs 200
  then 95 + ((200 - avgResponseTimeMs) / 200) * 5
  else if JS.ltb avgResponseTimeMs 500
  then 85 + ((500 - avgResponseTimeMs) / 300) * 10
  else if JS.ltb avgResponseTimeMs 1000
  then 70 + ((1000 - avgResponseTimeMs) / 500) * 15
  else if JS.ltb avgResponseTimeMs 2000
  then 50 + ((2000 - avgResponseTimeMs) / 1000) * 20
  else Qmax 0 (50 - ((avgResponseTimeMs - 2000) / 2000) * 50).

Definition calculateAccuracyScore (tests : list EndpointTest) : Q :=
  match tests with
  | [] => 0
  | _ =>
      let validResponses :=
        JS.length
          (filter (fun t => is_successful t && JS.truthy_str (response_sample t))
                  tests) in
      let accuracyPercent := (validResponses / JS.length tests) * 100 in
      if JS.geb accuracyPercent 95
      then 90 + ((accuracyPercent - 95) / 5) * 10
      else if JS.geb accuracyPercent 85
      then 75 + ((accuracyPercent - 85) / 10) * 15
      else if JS.geb accuracyPercent 70
      then 55 + ((accuracyPercent - 70) / 15) * 20
      else (accuracyPercent / 70) * 55
  end.

(** [calculateAgeScore].  The source reads the clock itself
    ([Math.floor(Date.now() / 1000)]); the reading is the parameter [now],
    in seconds. *)
Definition calculateAgeScore (now : Z) (firstTestedTimestamp : Z) : Q :=
  let ageInSeconds := inject_Z (now - firstTestedTimestamp) in
  let ageInDays := ageInSeconds / (24 * 60 * 60) in
  if JS.geb ageInDays 30 then 95 + Qmin 5 ((ageInDays - 30) / 30)
  else if JS.geb ageInDays 14 then 80 + ((ageInDays - 14) / 16) * 15
  else if JS.geb ageInDays 7 then 60 + ((ageInDays - 7) / 7) * 20
  else if JS.geb ageInDays 3 then 40 + ((ageInDays - 3) / 4) * 20
  else (ageInDays / 3) * 40.

Definition calculateOverallScore
    (uptimeScore speedScore accuracyScore ageScore : Q) : Q :=
  let score :=
    uptimeScore * 0.35 +
    speedScore * 0.25 +
    accuracyScore * 0.30 +
    ageScore * 0.10 in
  JS.round1 score.

Definition calculateGrade (score : Q) : string :=
  if JS.geb score 98 then "A+"
  else if JS.geb score 93 then "A"
  else if JS.geb score 90 then "A-"
  else if JS.geb score 87 then "B+"
  else if JS.geb score 83 then "B"
  else if JS.geb score 80 then "B-"
  else if JS.geb score 77 then "C+"
  else if JS.geb score 73 then "C"
  else if JS.geb score 70 then "C-"
  else if JS.geb score 60 then "D"
  else "F".

Inductive Recommendation : Type := TRUSTED | CAUTION | AVOID.

Definition calculateRecommendation (score : Q) : Recommendation :=
  if JS.geb score 85 then TRUSTED
  else if JS.geb score 65 then CAUTION
  else AVOID.

Record TrustScore : Type := mkTrustScore {
  ts_endpoint_id : Z;
  uptime_score : Q;
  speed_score : Q;
  accuracy_score : Q;
  age_score : Q;
  overall_score : Q;
  grade : string;
  recommendation : Recommendation;
  total_tests : Q;
  successful_tests : Q;
  failed_tests : Q;
  avg_response_time_ms : Q;
  first_tested_at : option Z;
  last_calculated_at : Z
}.

(** [calculateTrustScoreForEndpoint], on the window [tests] that
    [getEndpointTests] returned (newest first) and the clock reading [now]. *)
Definition calculateTrustScoreForEndpoint
    (now : Z) (endpoint : Z) (tests : list EndpointTest) : TrustScore :=
  match tests with
  | [] =>
      {| ts_endpoint_id := endpoint;
         uptime_score := 0; speed_score := 0;
         accuracy_score := 0; age_score := 0;
         overall_score := 0;
         grade := "F"; recommendation := AVOID;
         total_tests := 0; successful_tests := 0; failed_tests := 0;
         avg_response_time_ms := 0;
         first_tested_at := None;
         last_calculated_at := now |}
  | t0 :: _ =>
      let uptimePercent := calculateUptime tests in
      let avgResponseTime := calculateAvgResponseTime tests in
      let firstTest := last tests t0 in
      let uptimeScore := calculateUptimeScore uptimePercent in
      let speedScore := calculateSpeedScore avgResponseTime in
      let accuracyScore := calculateAccuracyScore tests in
      let ageScore := calculateAgeScore now (test_timestamp firstTest) in
      let overallScore :=
        calculateOverallScore uptimeScore speedScore accuracyScore ageScore in
      let grade := calculateGrade overallScore in
      let recommendation := calculateRecommendation overallScore in
      let successfulTests := JS.length (filter is_successful tests) in
      {| ts_endpoint_id := endpoint;
         uptime_score := JS.round1 uptimeScore;
         speed_score := JS.round1 speedScore;
         accuracy_score := JS.round1 accuracyScore;
         age_score := JS.round1 ageScore;
         overall_score := overallScore;
         grade := grade;
         recommendation := recommendation;
         total_tests := JS.length tests;
         successful_tests := successfulTests;
         failed_tests := JS.length tests - successfulTests;
         avg_response_time_ms := JS.round avgResponseTime;
         first_tested_at := Some (test_timestamp firstTest);
         last_calculated_at := now |}
  end.

(** ** The D1 database: the tables the two handlers touch

    Rows carry the columns that the handlers read or write.  Of
    [evaluators], the marketplace, contact and economic columns are left
    out, and of [evaluation_predictions] the JSON-encoded
    [features_analyzed]: no handler below reads them back.  Of
    [agent_evaluations] only the ids are kept: the two tables of
    [migrations/0004_evaluation_predictions.sql] refer to them by foreign
    key, and no handler below reads or writes any other column. *)

Inductive AccuracyCategory : Type := excellent | good | fair | poor.

Record EvaluatorRow : Type := mkEvaluatorRow {
  ev_id : Z;
  ev_evaluator_url : string;
  trust_score : Z;
  prediction_accuracy_rate : Q;
  calibration_score : Q;
  consistency_score : Q;
  total_evaluations : Z;
  total_predictions : Z;
  avg_absolute_error : Q;
  grade_accuracy_rate : Q
}.

Record PredictionRow : Type := mkPredictionRow {
  pr_id : Z;
  pr_evaluator_url : string;
  pr_evaluator_name : option string;
  pr_target_url : string;
  pr_target_name : option string;
  pr_prediction_timestamp : Z;
  pr_predicted_score : Q;
  pr_predicted_grade : string;
  pr_confidence_level : Q;
  pr_prediction_basis : string;
  pr_historical_data_points : Z;
  pr_similar_agents_analyzed : Z;
  pr_actual_evaluation_id : option Z
}.

(** A row of [prediction_discrepancies] as a statement hands it to the
    table.  [prediction_id] and [evaluation_id] are declared
    [INTEGER NOT NULL] without a default; a statement that does not name
    them leaves them NULL, here [None]. *)
Record DiscrepancyRow : Type := mkDiscrepancyRow {
  dr_id : Z;
  dr_prediction_id : option Z;
  dr_evaluation_id : option Z;
  dr_evaluator_url : string;
  dr_target_url : string;
  dr_analysis_timestamp : Z;
  dr_predicted_score : Q;
  dr_actual_score : Q;
  dr_score_difference : Q;
  dr_absolute_error : Q;
  dr_predicted_grade : string;
  dr_actual_grade : string;
  dr_grade_match : Z;
  dr_confidence_was : Q;
  dr_prediction_basis_was : string;
  dr_test_discrepancies : string;
  dr_accuracy_category : AccuracyCategory;
  dr_overestimated : Z
}.

(** A row of [evaluator_reputation_history]. *)
Record ReputationSnapshot : Type := mkReputationSnapshot {
  rs_id : Z;
  rs_evaluator_id : Z;
  rs_snapshot_timestamp : Z;
  rs_trust_score : Z;
  rs_change_reason : option string;
  rs_score_change : option Z
}.

Record DB : Type := mkDB {
  agent_evaluations : list Z;
  evaluators : list EvaluatorRow;
  evaluation_predictions : list PredictionRow;
  prediction_discrepancies : list DiscrepancyRow;
  evaluator_reputation_history : list ReputationSnapshot
}.

(** *** Statements run against the database, in a state monad *)

Definition DBM (A : Type) : Type := DB -> A * DB.

Definition ret {A : Type} (a : A) : DBM A := fun db => (a, db).

Definition bind {A B : Type} (c : DBM A) (k : A -> DBM B) : DBM B :=
  fun db => let (a, db') := c db in k a db'.

Declare Scope dbm_scope.
Delimit Scope dbm_scope with dbm.
Notation "x <- c ;; k" := (bind c (fun x => k))
  (at level 61, c at next level, right associativity) : dbm_scope.
Notation "c ;;; k" := (bind c (fun _ => k))
  (at level 61, right associativity) : dbm_scope.

(** The constraint of the schema that made a statement fail. *)
Inductive D1Error : Type :=
| NotNullFailed (column : string)
| ForeignKeyFailed.

(** What [run()] gives for an INSERT: [meta.last_row_id], or the
    exception thrown when a constraint of the schema fails; the table is
    then as it was. *)
Inductive RunResult : Type :=
| Done (last_row_id : Z)
| Thrown (error : D1Error).

(** The id that AUTOINCREMENT gives the next row of a table nothing is
    ever deleted from. *)
Definition next_id {A : Type} (table : list A) : Z :=
  Z.of_nat (List.length table) + 1.

(** [FOREIGN KEY (...) REFERENCES agent_evaluations(id)]: a NULL refers to
    nothing and passes. *)
Definition references_evaluation (id : option Z) (db : DB) : bool :=
  match id with
  | Some id => existsb (Z.eqb id) (agent_evaluations db)
  | None => true
  end.

(** [FOREIGN KEY (prediction_id) REFERENCES evaluation_predictions(id)]. *)
Definition references_prediction (id : Z) (db : DB) : bool :=
  existsb (fun p => Z.eqb (pr_id p) id) (evaluation_predictions db).


(** [INSERT INTO prediction_discrepancies (...) VALUES (...)], under
    [prediction_id INTEGER NOT NULL], [evaluation_id INTEGER NOT NULL] and
    the two foreign keys. *)
Definition insert_discrepancy (mk : Z -> DiscrepancyRow) : DBM RunResult :=
  fun db =>
    let id := next_id (prediction_discrepancies db) in
    match dr_prediction_id (mk id), dr_evaluation_id (mk id) with
    | None, _ =>
        (Thrown (NotNullFailed "prediction_discrepancies.prediction_id"), db)
    | Some _, None =>
        (Thrown (NotNullFailed "prediction_discrepancies.evaluation_id"), db)
    | Some prediction_id, Some evaluation_id =>
        if references_prediction prediction_id db
           && references_evaluation (Some evaluation_id) db
        then
          (Done id,
           {| agent_evaluations := agent_evaluations db;
              evaluators := evaluators db;
              evaluation_predictions := evaluation_predictions db;
              prediction_discrepancies :=
                prediction_discrepancies db ++ [mk id];
              evaluator_reputation_history :=
                evaluator_reputation_history db |})
        else (Thrown ForeignKeyFailed, db)
    end.

(** [SELECT id, total_predictions, avg_absolute_error, grade_accuracy_rate
     FROM evaluators WHERE evaluator_url = ?], [.first()]. *)
Definition find_evaluator (url : string) (rows : list EvaluatorRow)
  : option EvaluatorRow :=
  find (fun r => String.eqb (ev_evaluator_url r) url) rows.

Definition select_evaluator (url : string) : DBM (option EvaluatorRow) :=
  fun db => (find_evaluator url (evaluators db), db).

(** [UPDATE evaluators SET total_predictions = ?, avg_absolute_error = ?,
     grade_accuracy_rate = ?, prediction_accuracy_rate = ? WHERE id = ?]. *)
Definition set_prediction_stats
    (newTotal : Z) (newAvg newGrade newRate : Q) (r : EvaluatorRow)
  : EvaluatorRow :=
  {| ev_id := ev_id r;
     ev_evaluator_url := ev_evaluator_url r;
     trust_score := trust_score r;
     prediction_accuracy_rate := newRate;
     calibration_score := calibration_score r;
     consistency_score := consistency_score r;
     total_evaluations := total_evaluations r;
     total_predictions := newTotal;
     avg_absolute_error := newAvg;
     grade_accuracy_rate := newGrade |}.

Definition update_evaluator
    (newTotal : Z) (newAvg newGrade newRate : Q) (id : Z) : DBM unit :=
  fun db =>
    (tt,
     {| agent_evaluations := agent_evaluations db;
        evaluators :=
          map (fun r => if Z.eqb (ev_id r) id
                        then set_prediction_stats newTotal newAvg newGrade
                                                  newRate r
                        else r)
              (evaluators db);
        evaluation_predictions := evaluation_predictions db;
        prediction_discrepancies := prediction_discrepancies db;
        evaluator_reputation_history := evaluator_reputation_history db |}).

(** ** [src/index.ts]: the two handlers

    A request body is the parsed JSON.  The fields a handler tests for
    presence are optional; the others have the type [types.ts] declares.
    An INSERT that fails a constraint throws, and the [catch] branch of the
    handler answers with status 500. *)


Record PredictionDiscrepancyRequest : Type := mkDiscrepancyRequest {
  d_evaluator_url : option string;
  d_target_url : option string;
  d_analysis_timestamp : Z;
  d_predicted_score : option Q;
  d_actual_score : option Q;
  d_score_difference : Q;
  d_absolute_error : Q;
  d_predicted_grade : string;
  d_actual_grade : string;
  d_grade_match : bool;
  d_confidence_was : Q;
  d_prediction_basis_was : string;
  d_test_discrepancies : option string;
  d_accuracy_category : AccuracyCategory;
  d_overestimated : bool
}.

Record LearningInsights : Type := mkLearningInsights {
  evaluator_performance : string;
  suggested_adjustments : list string
}.

(** What a handler answers: status 200 with the id of the stored row,
    status 400 with the error text of the presence test, or status 500
    from the [catch] branch. *)
Inductive Response : Type :=
| Stored (message : string) (row_id : Z) (insights : option LearningInsights)
| Rejected (error : string)
| Failed (error : D1Error).

Definition status (r : Response) : Z :=
  match r with
  | Stored _ _ _ => 200
  | Rejected _ => 400
  | Failed _ => 500
  end.

(** [x || null], [x || 0], [x || '[]'] on optional values. *)
Definition str_or_null (x : option string) : option string :=
  if JS.truthy_str x then x else None.


Definition int_or_null (x : option Z) : option Z :=
  match x with
  | Some z => if Z.eqb z 0 then None else Some z
  | None => None
  end.

Definition str_or (x : option string) (d : string) : string :=
  match x with
  | Some EmptyString => d
  | Some s => s
  | None => d
  end.


(** The [learningInsights] chain of [handleAgentDiscrepancy]. *)
Definition learning_insights (c : AccuracyCategory) : LearningInsights :=
  match c with
  | excellent =>
      {| evaluator_performance :=
           "Excellent prediction accuracy! Your model is well-calibrated.";
         suggested_adjustments := [] |}
  | good =>
      {| evaluator_performance :=
           "Good prediction accuracy. Minor adjustments may improve performance.";
         suggested_adjustments :=
           ["Consider adjusting test weights based on discrepancy patterns"] |}
  | fair =>
      {| evaluator_performance :=
           "Fair prediction accuracy. Review prediction model for improvements.";
         suggested_adjustments :=
           ["Analyze which test categories show highest discrepancy";
            "Increase weight on consistently underestimated categories";
            "Gather more historical data for better predictions"] |}
  | poor =>
      {| evaluator_performance :=
           "Poor prediction accuracy. Significant model adjustments needed.";
         suggested_adjustments :=
           ["Review prediction basis - consider using more historical data";
            "Recalibrate confidence thresholds";
            "Analyze test discrepancies for systematic bias";
            "Consider adjusting baseline assumptions"] |}
  end.

Definition bool_to_int (b : bool) : Z := if b then 1%Z else 0%Z.

(** The running averages the handler computes from the selected row. *)
Definition newTotalPredictions (evaluator : EvaluatorRow) : Z :=
  (total_predictions evaluator + 1)%Z.

Definition newAvgError (evaluator : EvaluatorRow) (absolute_error : Q) : Q :=
  (avg_absolute_error evaluator * inject_Z (total_predictions evaluator)
   + absolute_error)
  / inject_Z (newTotalPredictions evaluator).

Definition newGradeAccuracy (evaluator : EvaluatorRow) (grade_match : bool)
  : Q :=
  let gradeMatch := inject_Z (bool_to_int grade_match) in
  (grade_accuracy_rate evaluator * inject_Z (total_predictions evaluator)
   + gradeMatch)
  / inject_Z (newTotalPredictions evaluator).

(** The values the INSERT of [handleAgentDiscrepancy] binds, as a row.
    Its column list has the fifteen columns bound here; [prediction_id]
    and [evaluation_id] are not among them. *)
Definition discrepancy_values
    (body : PredictionDiscrepancyRequest)
    (evaluator_url target_url : string) (predicted_score actual_score : Q)
    (id : Z) : DiscrepancyRow :=
  {| dr_id := id;
     dr_prediction_id := None;
     dr_evaluation_id := None;
     dr_evaluator_url := evaluator_url;
     dr_target_url := target_url;
     dr_analysis_timestamp := d_analysis_timestamp body;
     dr_predicted_score := predicted_score;
     dr_actual_score := actual_score;
     dr_score_difference := d_score_difference body;
     dr_absolute_error := d_absolute_error body;
     dr_predicted_grade := d_predicted_grade body;
     dr_actual_grade := d_actual_grade body;
     dr_grade_match := bool_to_int (d_grade_match body);
     dr_confidence_was := d_confidence_was body;
     dr_prediction_basis_was := d_prediction_basis_was body;
     dr_test_discrepancies := str_or (d_test_discrepancies body) "[]";
     dr_accuracy_category := d_accuracy_category body;
     dr_overestimated := bool_to_int (d_overestimated body) |}.

(** The block that follows the INSERT in [handleAgentDiscrepancy]: the
    SELECT of the evaluator's row and, when there is one, the UPDATE of
    its running averages. *)
Definition update_prediction_accuracy
    (evaluator_url : string) (body : PredictionDiscrepancyRequest)
  : DBM unit :=
  (evaluator <- select_evaluator evaluator_url ;;
   match evaluator with
   | Some evaluator =>
       let newAvg := newAvgError evaluator (d_absolute_error body) in
       update_evaluator
         (newTotalPredictions evaluator)
         newAvg
         (newGradeAccuracy evaluator (d_grade_match body))
         (1 - newAvg / 100)
         (ev_id evaluator)
   | None => ret tt
   end)%dbm.

Definition handleAgentDiscrepancy (body : PredictionDiscrepancyRequest)
  : DBM Response :=
  match d_evaluator_url body, d_target_url body,
        d_predicted_score body, d_actual_score body with
  | Some evaluator_url, Some target_url,
    Some predicted_score, Some actual_score =>
      if negb (JS.truthy_str (d_evaluator_url body))
         || negb (JS.truthy_str (d_target_url body))
      then ret (Rejected "Missing required fields: evaluator_url, target_url, predicted_score, actual_score")
      else
        (result <- insert_discrepancy
                     (discrepancy_values body evaluator_url target_url
                                         predicted_score actual_score) ;;
         match result with
         | Done last_row_id =>
             update_prediction_accuracy evaluator_url body ;;;
             ret (Stored "Discrepancy analysis received and stored"
                         last_row_id
                         (Some (learning_insights (d_accuracy_category body))))
         | Thrown error => ret (Failed error)
         end)%dbm
  | _, _, _, _ =>
      ret (Rejected "Missing required fields: evaluator_url, target_url, predicted_score, actual_score")
  end.

(** The database after a handler ran, and after a stream of discrepancy
    requests was handled one by one. *)
Definition exec {A : Type} (c : DBM A) (db : DB) : DB := snd (c db).

Definition record_all (bodies : list PredictionDiscrepancyRequest) (db : DB)
  : DB :=
  fold_left (fun db body => exec (handleAgentDiscrepancy body) db) bodies db.

(** ** What the specification says, for comparison with the code *)

Module Spec.




(** A band: an optional inclusive lower bound and an optional exclusive
    upper bound. *)
Definition in_band (lo hi : option Q) (score : Q) : Prop :=
  match lo with Some l => l <= score | None => True end /\
  match hi with Some h => score < h | None => True end.

(** The grade thresholds, as bands. *)
Definition grade_bands : list (string * option Q * option Q) :=
  [ ("A+", Some 98, None);
    ("A",  Some 93, Some 98);
    ("A-", Some 90, Some 93);
    ("B+", Some 87, Some 90);
    ("B",  Some 83, Some 87);
    ("B-", Some 80, Some 83);
    ("C+", Some 77, Some 80);
    ("C",  Some 73, Some 77);
    ("C-", Some 70, Some 73);
    ("D",  Some 60, Some 70);
    ("F",  None,    Some 60) ].

Definition grade_band (g : string) (score : Q) : Prop :=
  exists lo hi, In (g, lo, hi) grade_bands /\ in_band lo hi score.

(** The recommendation thresholds, as bands. *)
Definition recommendation_band (r : Recommendation) (score : Q) : Prop :=
  match r with
  | TRUSTED => in_band (Some 85) None score
  | CAUTION => in_band (Some 65) (Some 85) score
  | AVOID => in_band None (Some 65) score
  end.

End Spec.

(** ** Requests a handler accepts *)


(** The presence test of [handleAgentDiscrepancy] passes. *)
Definition accepted_discrepancy (body : PredictionDiscrepancyRequest) : bool :=
  JS.truthy_str (d_evaluator_url body)
  && JS.truthy_str (d_target_url body)
  && match d_predicted_score body with Some _ => true | None => false end
  && match d_actual_score body with Some _ => true | None => false end.


(** Sum of a list of numbers, and the number of [true] in a list. *)
Definition Qsum (l : list Q) : Q := fold_right Qplus 0 l.

Definition count_true (l : list bool) : Z :=
  Z.of_nat (List.length (filter (fun b => b) l)).







(** ** Sample data *)

Module Sample.

Definition day : Z := 86400.

(** A test that failed after 120 ms with status 500. *)
Definition failed_test : EndpointTest :=
  {| endpoint_id := 1; test_timestamp := 0;
     status_code := Some 500%Z; response_time_ms := Some 120;
     is_successful := false; error_message := Some "HTTP 500";
     response_sample := None |}.

Definition all_failed_window : list EndpointTest :=
  failed_test :: repeat failed_test 99.

(** A test that succeeded in 100 ms but whose body was not JSON. *)
Definition unsampled_success : EndpointTest :=
  {| endpoint_id := 1; test_timestamp := 0;
     status_code := Some 200%Z; response_time_ms := Some 100;
     is_successful := true; error_message := None;
     response_sample := None |}.

(** A test that succeeded but carries no latency. *)
Definition unmeasured_success : EndpointTest :=
  {| endpoint_id := 1; test_timestamp := 0;
     status_code := Some 200%Z; response_time_ms := None;
     is_successful := true; error_message := None;
     response_sample := None |}.

Definition url : string := "https://evaluator.example".

(** A registered evaluator in the state the schema defaults give. *)
Definition fresh_evaluator : EvaluatorRow :=
  {| ev_id := 1; ev_evaluator_url := url;
     trust_score := 500;
     prediction_accuracy_rate := 0;
     calibration_score := 0; consistency_score := 0;
     total_evaluations := 0; total_predictions := 0;
     avg_absolute_error := 0; grade_accuracy_rate := 0 |}.

Definition empty_db : DB :=
  {| agent_evaluations := [];
     evaluators := []; evaluation_predictions := [];
     prediction_discrepancies := []; evaluator_reputation_history := [] |}.

Definition registered_db : DB :=
  {| agent_evaluations := [];
     evaluators := [fresh_evaluator]; evaluation_predictions := [];
     prediction_discrepancies := []; evaluator_reputation_history := [] |}.

(** The same, next to a second evaluator with four predictions behind
    it. *)
Definition two_evaluators_db : DB :=
  {| agent_evaluations := [];
     evaluators :=
       [fresh_evaluator;
        {| ev_id := 2; ev_evaluator_url := "https://other.example";
           trust_score := 640;
           prediction_accuracy_rate := 47 # 50;
           calibration_score := 0; consistency_score := 0;
           total_evaluations := 0; total_predictions := 4;
           avg_absolute_error := 6; grade_accuracy_rate := 1 # 2 |}];
     evaluation_predictions := [];
     prediction_discrepancies := []; evaluator_reputation_history := [] |}.

(** A discrepancy report with the given error, grade match and
    category. *)
Definition discrepancy (absolute_error : Q) (grade_match : bool)
    (category : AccuracyCategory) : PredictionDiscrepancyRequest :=
  {| d_evaluator_url := Some url;
     d_target_url := Some "https://target.example";
     d_analysis_timestamp := 1700000000;
     d_predicted_score := Some 80;
     d_actual_score := Some (80 - absolute_error);
     d_score_difference := - absolute_error;
     d_absolute_error := absolute_error;
     d_predicted_grade := "B";
     d_actual_grade := if grade_match then "B" else "C";
     d_grade_match := grade_match;
     d_confidence_was := 0.8;
     d_prediction_basis_was := "historical";
     d_test_discrepancies := None;
     d_accuracy_category := category;
     d_overestimated := true |}.




End Sample.

(** ** Orders on grades and recommendations

    The letter grades from worst to best, and the position of a grade in
    that list. *)
Definition grade_order : list string :=
  ["F"; "D"; "C-"; "C"; "C+"; "B-"; "B"; "B+"; "A-"; "A"; "A+"].

Fixpoint position (g : string) (l : list string) : nat :=
  match l with
  | [] => 0
  | x :: rest => if String.eqb x g then 0 else S (position g rest)
  end.

Definition grade_rank (g : string) : nat := position g grade_order.

Definition recommendation_rank (r : Recommendation) : nat :=
  match r with
  | AVOID => 0
  | CAUTION => 1
  | TRUSTED => 2
  end.

(** The tests of a window that enter the latency sample. *)
Definition sampled (t : EndpointTest) : bool :=
  is_successful t && JS.truthy_num (response_time_ms t).

(** A latency that is present is not negative. *)
Definition latency_nonneg (t : EndpointTest) : Prop :=
  forall q, response_time_ms t = Some q -> 0 <= q.


(** The id a handler reports for the row it stored. *)
Definition stored_id (r : Response) : option Z :=
  match r with
  | Stored _ id _ => Some id
  | Rejected _ => None
  | Failed _ => None
  end.



(** ** The endpoint tables and what is saved to them

    [endpoints], [endpoint_tests] and [trust_scores].  Of an endpoint the
    framework, category, payment and audit columns are left out, which no
    code below writes; the row ids of
    [endpoint_tests] and [trust_scores] are not read by any code below and
    are left out as well.  Both tables refer to [endpoints] by a foreign
    key on [endpoint_id]. *)

Record Endpoint : Type := mkEndpoint {
  e_id : Z;
  e_url : string;
  e_name : string;
  e_description : option string;
  e_author : option string;
  e_organization : option string;
  e_discovered_at : Z;
  e_last_seen_at : Z;
  e_discovery_source : string;
  e_is_active : bool;
  e_last_checked_at : option Z
}.

Record Registry : Type := mkRegistry {
  endpoints : list Endpoint;
  endpoint_tests : list EndpointTest;
  trust_scores : list TrustScore
}.

(** [x || null] on an optional number. *)
Definition num_or_null (x : option Q) : option Q :=
  if JS.truthy_num x then x else None.

(** The row [saveTestResult] binds into its INSERT. *)
Definition stored_test (test : EndpointTest) : EndpointTest :=
  {| endpoint_id := endpoint_id test;
     test_timestamp := test_timestamp test;
     status_code := int_or_null (status_code test);
     response_time_ms := num_or_null (response_time_ms test);
     is_successful := is_successful test;
     error_message := str_or_null (error_message test);
     response_sample := str_or_null (response_sample test) |}.

Definition set_last_checked (at_ : Z) (e : Endpoint) : Endpoint :=
  {| e_id := e_id e;
     e_url := e_url e;
     e_name := e_name e;
     e_description := e_description e;
     e_author := e_author e;
     e_organization := e_organization e;
     e_discovered_at := e_discovered_at e;
     e_last_seen_at := e_last_seen_at e;
     e_discovery_source := e_discovery_source e;
     e_is_active := e_is_active e;
     e_last_checked_at := Some at_ |}.

(** [FOREIGN KEY (endpoint_id) REFERENCES endpoints(id)]. *)
Definition references_endpoint (id : Z) (rows : list Endpoint) : bool :=
  existsb (fun e => Z.eqb (e_id e) id) rows.

(** [saveTestResult]: the INSERT into [endpoint_tests], then
    [UPDATE endpoints SET last_checked_at = ? WHERE id = ?].  An INSERT
    for an endpoint that is not on record fails the foreign key; the
    [catch] logs the error, the UPDATE is not reached and nothing is
    changed. *)
Definition saveTestResult (test : EndpointTest) (reg : Registry) : Registry :=
  if references_endpoint (endpoint_id test) (endpoints reg)
  then
    {| endpoints :=
         map (fun e => if Z.eqb (e_id e) (endpoint_id test)
                       then set_last_checked (test_timestamp test) e
                       else e)
             (endpoints reg);
       endpoint_tests := endpoint_tests reg ++ [stored_test test];
       trust_scores := trust_scores reg |}
  else reg.

(** The values [saveTrustScore] binds: the score with
    [first_tested_at || null]. *)
Definition stored_score (trustScore : TrustScore) : TrustScore :=
  {| ts_endpoint_id := ts_endpoint_id trustScore;
     uptime_score := uptime_score trustScore;
     speed_score := speed_score trustScore;
     accuracy_score := accuracy_score trustScore;
     age_score := age_score trustScore;
     overall_score := overall_score trustScore;
     grade := grade trustScore;
     recommendation := recommendation trustScore;
     total_tests := total_tests trustScore;
     successful_tests := successful_tests trustScore;
     failed_tests := failed_tests trustScore;
     avg_response_time_ms := avg_response_time_ms trustScore;
     first_tested_at := int_or_null (first_tested_at trustScore);
     last_calculated_at := last_calculated_at trustScore |}.

(** [SELECT ... FROM trust_scores WHERE endpoint_id = ?], [.first()]. *)
Definition find_trust_score (id : Z) (rows : list TrustScore)
  : option TrustScore :=
  find (fun r => Z.eqb (ts_endpoint_id r) id) rows.

(** [saveTrustScore]: UPDATE the row of the endpoint when there is one,
    INSERT otherwise.  An INSERT for an endpoint that is not on record
    fails the foreign key; the [catch] logs the error and nothing is
    changed. *)
Definition saveTrustScore (trustScore : TrustScore) (reg : Registry)
  : Registry :=
  match find_trust_score (ts_endpoint_id trustScore) (trust_scores reg) with
  | Some existing =>
      {| endpoints := endpoints reg;
         endpoint_tests := endpoint_tests reg;
         trust_scores :=
           map (fun r => if Z.eqb (ts_endpoint_id r)
                                  (ts_endpoint_id trustScore)
                         then stored_score trustScore
                         else r)
               (trust_scores reg) |}
  | None =>
      if references_endpoint (ts_endpoint_id trustScore) (endpoints reg)
      then
        {| endpoints := endpoints reg;
           endpoint_tests := endpoint_tests reg;
           trust_scores := trust_scores reg ++ [stored_score trustScore] |}
      else reg
  end.

(** [SELECT * FROM endpoints WHERE url = ?], [.first()]. *)
Definition find_endpoint (url : string) (rows : list Endpoint)
  : option Endpoint :=
  find (fun e => String.eqb (e_url e) url) rows.

(** ** The payment gate and the two read handlers behind it *)

(** A JavaScript number that may not be finite. *)
Inductive JSNumber : Type :=
| Finite (q : Q)
| NaN
| PosInfinity
| NegInfinity.

(** [x < y] for a finite [y]. *)
Definition number_lt (x : JSNumber) (y : Q) : bool :=
  match x with
  | Finite q => JS.ltb q y
  | NaN => false
  | PosInfinity => false
  | NegInfinity => true
  end.

Record Env : Type := mkEnv {
  INTERNAL_API_KEY : string;
  FACILITATOR_URL : option string
}.

(** The request headers the handlers read. *)
Record Headers : Type := mkHeaders {
  x_internal_api_key : option string;
  x_payment_proof : option string;
  x_payment_amount : option string
}.

Definition isInternalRequest (request : Headers) (env : Env) : bool :=
  match x_internal_api_key request with
  | Some apiKey => String.eqb apiKey (INTERNAL_API_KEY env)
  | None => false
  end.

(** What a public handler answers. *)
Inductive Reply (A : Type) : Type :=
| Ok (body : A)
| PaymentRequired (amount facilitator : string)
| BadRequest (error : string)
| NotFound (error : string).

Arguments Ok {A} body.
Arguments PaymentRequired {A} amount facilitator.
Arguments BadRequest {A} error.
Arguments NotFound {A} error.

Definition reply_status {A : Type} (r : Reply A) : Z :=
  match r with
  | Ok _ => 200
  | PaymentRequired _ _ => 402
  | BadRequest _ => 400
  | NotFound _ => 404
  end.

Record TrustScoreResponse : Type := mkTrustScoreResponse {
  tr_endpoint : string;
  tr_overall : Q;
  tr_uptime : Q;
  tr_speed : Q;
  tr_accuracy : Q;
  tr_age : Q;
  tr_grade : string;
  tr_recommendation : Recommendation;
  tr_total_tests : Q;
  tr_successful_tests : Q;
  tr_avg_response_time_ms : Q;
  tr_last_updated_ms : Z
}.

Record ComparisonEntry : Type := mkComparisonEntry {
  c_url : string;
  c_name : string;
  c_trust_score : Q;
  c_grade : string;
  c_avg_response_time_ms : Q;
  c_uptime_percentage : Q;
  c_recommendation : Recommendation
}.

Record CompareEndpointsResponse : Type := mkCompareResponse {
  comparison : list ComparisonEntry;
  winner : ComparisonEntry
}.

(** [comparison.reduce((best, current) =>
      current.trust_score > best.trust_score ? current : best)]. *)
Definition reduce_winner (first : ComparisonEntry)
    (rest : list ComparisonEntry) : ComparisonEntry :=
  fold_left (fun best current =>
               if JS.ltb (c_trust_score best) (c_trust_score current)
               then current else best)
            rest first.

(** The entry [handleCompare] pushes for one URL. *)
Definition compare_entry (reg : Registry) (url : string) : ComparisonEntry :=
  match find_endpoint url (endpoints reg) with
  | None =>
      {| c_url := url; c_name := "Not Found"; c_trust_score := 0;
         c_grade := "F"; c_avg_response_time_ms := 0;
         c_uptime_percentage := 0; c_recommendation := AVOID |}
  | Some endpoint =>
      match find_trust_score (e_id endpoint) (trust_scores reg) with
      | None =>
          {| c_url := url; c_name := e_name endpoint; c_trust_score := 0;
             c_grade := "F"; c_avg_response_time_ms := 0;
             c_uptime_percentage := 0; c_recommendation := AVOID |}
      | Some trustScore =>
          let uptimePercent :=
            if JS.ltb 0 (total_tests trustScore)
            then (successful_tests trustScore / total_tests trustScore) * 100
            else 0 in
          {| c_url := url; c_name := e_name endpoint;
             c_trust_score := overall_score trustScore;
             c_grade := grade trustScore;
             c_avg_response_time_ms := avg_response_time_ms trustScore;
             c_uptime_percentage := JS.round1 uptimePercent;
             c_recommendation := recommendation trustScore |}
      end
  end.

Section Payment.

(** [parseFloat], the host's reading of a header value as a number. *)
Variable parseFloat : string -> JSNumber.

(** [hasValidPayment]. *)
Definition hasValidPayment (request : Headers) (requiredAmount : Q) : bool :=
  match x_payment_proof request, x_payment_amount request with
  | Some paymentProof, Some paymentAmount =>
      if negb (JS.truthy_str (Some paymentProof))
         || negb (JS.truthy_str (Some paymentAmount))
      then false
      else
        let amount := parseFloat paymentAmount in
        if number_lt amount requiredAmount then false
        else true
  | _, _ => false
  end.

(** The check each public handler starts with: free for internal
    requests, [price] for the others. *)
Definition payment_gate {A : Type} (request : Headers) (env : Env)
    (requiredAmount : Q) (price : string) (handler : Reply A) : Reply A :=
  let isInternal := isInternalRequest request env in
  if negb isInternal
  then
    let hasPayment := hasValidPayment request requiredAmount in
    if negb hasPayment
    then
      let facilitatorUrl :=
        str_or (FACILITATOR_URL env) "https://facilitator.daydreams.systems" in
      PaymentRequired price facilitatorUrl
    else handler
  else handler.

(** [handleTrustScore].  The two ISO renderings of [last_calculated_at]
    are kept as the millisecond timestamp they render. *)
Definition handleTrustScore (request : Headers) (endpoint_url : option string)
    (env : Env) (reg : Registry) : Reply TrustScoreResponse :=
  payment_gate request env 0.50 "0.50"
    (match endpoint_url with
     | None => BadRequest "endpoint_url is required"
     | Some EmptyString => BadRequest "endpoint_url is required"
     | Some url =>
         match find_endpoint url (endpoints reg) with
         | None => NotFound "Endpoint not found"
         | Some endpoint =>
             match find_trust_score (e_id endpoint) (trust_scores reg) with
             | None => NotFound "Trust score not yet calculated"
             | Some trustScore =>
                 Ok {| tr_endpoint := url;
                       tr_overall := overall_score trustScore;
                       tr_uptime := uptime_score trustScore;
                       tr_speed := speed_score trustScore;
                       tr_accuracy := accuracy_score trustScore;
                       tr_age := age_score trustScore;
                       tr_grade := grade trustScore;
                       tr_recommendation := recommendation trustScore;
                       tr_total_tests := total_tests trustScore;
                       tr_successful_tests := successful_tests trustScore;
                       tr_avg_response_time_ms :=
                         avg_response_time_ms trustScore;
                       tr_last_updated_ms :=
                         (last_calculated_at trustScore * 1000)%Z |}
             end
         end
     end).

(** [handleCompare].  The winner is returned as the entry itself; the
    [reason] text rendered from it and the [tested_at] clock reading are
    left out. *)
Definition handleCompare (request : Headers)
    (endpoint_urls : option (list string)) (env : Env) (reg : Registry)
  : Reply CompareEndpointsResponse :=
  payment_gate request env 0.50 "0.50"
    (match endpoint_urls with
     | None => BadRequest "Provide 2-5 endpoint URLs"
     | Some urls =>
         if Nat.ltb (List.length urls) 2 || Nat.ltb 5 (List.length urls)
         then BadRequest "Provide 2-5 endpoint URLs"
         else
           match map (compare_entry reg) urls with
           | [] => BadRequest "Provide 2-5 endpoint URLs" (* not reached *)
           | first :: rest =>
               Ok {| comparison := first :: rest;
                     winner := reduce_winner first rest |}
           end
     end).

End Payment.

(** ** [lib/discovery.ts]: de-duplication and saving

    The sources of a discovery run are network reads; their results are
    the arguments of [runDiscovery]. *)

Record DiscoveryResult : Type := mkDiscoveryResult {
  r_url : string;
  r_name : string;
  r_description : option string;
  r_author : option string;
  r_organization : option string;
  r_source : string
}.

(** [map.set(key, value)] on a JavaScript [Map], kept in insertion order:
    a key that is present keeps its place and takes the new value. *)
Fixpoint map_set {V : Type} (key : string) (value : V)
    (m : list (string * V)) : list (string * V) :=
  match m with
  | [] => [(key, value)]
  | (k, v) :: rest =>
      if String.eqb k key then (key, value) :: rest
      else (k, v) :: map_set key value rest
  end.

(** [Array.from(new Map(allDiscoveries.map(d => [d.url, d])).values())]. *)
Definition uniqueDiscoveries (allDiscoveries : list DiscoveryResult)
  : list DiscoveryResult :=
  map snd (fold_left (fun m d => map_set (r_url d) d m) allDiscoveries []).

(** [UPDATE endpoints SET last_seen_at = ?, is_active = 1 WHERE url = ?]. *)
Definition mark_seen (now : Z) (e : Endpoint) : Endpoint :=
  {| e_id := e_id e;
     e_url := e_url e;
     e_name := e_name e;
     e_description := e_description e;
     e_author := e_author e;
     e_organization := e_organization e;
     e_discovered_at := e_discovered_at e;
     e_last_seen_at := now;
     e_is_active := true;
     e_discovery_source := e_discovery_source e;
     e_last_checked_at := e_last_checked_at e |}.

(** An endpoint seen at [now]: present, active, last seen at [now]. *)
Definition seen_at (now : Z) (url : string) (rows : list Endpoint) : Prop :=
  exists e, find_endpoint url rows = Some e
            /\ e_is_active e = true /\ e_last_seen_at e = now.

(** One turn of the loop of [saveDiscoveredEndpoints]. *)
Definition save_discovery (now : Z) (discovery : DiscoveryResult)
    (state : Z * Registry) : Z * Registry :=
  let (savedCount, reg) := state in
  match find_endpoint (r_url discovery) (endpoints reg) with
  | Some existing =>
      (savedCount,
       {| endpoints :=
            map (fun e => if String.eqb (e_url e) (r_url discovery)
                          then mark_seen now e else e)
                (endpoints reg);
          endpoint_tests := endpoint_tests reg;
          trust_scores := trust_scores reg |})
  | None =>
      ((savedCount + 1)%Z,
       {| endpoints :=
            endpoints reg ++
            [{| e_id := next_id (endpoints reg);
                e_url := r_url discovery;
                e_name := r_name discovery;
                e_description := str_or_null (r_description discovery);
                e_author := str_or_null (r_author discovery);
                e_organization := str_or_null (r_organization discovery);
                e_discovered_at := now;
                e_last_seen_at := now;
                e_discovery_source := r_source discovery;
                e_is_active := true;
                e_last_checked_at := None |}];
          endpoint_tests := endpoint_tests reg;
          trust_scores := trust_scores reg |})
  end.

(** [saveDiscoveredEndpoints] at the clock reading [now]: the number of
    endpoints inserted, and the tables after. *)
Definition saveDiscoveredEndpoints (now : Z)
    (discoveries : list DiscoveryResult) (reg : Registry) : Z * Registry :=
  fold_left (fun state discovery => save_discovery now discovery state)
            discoveries (0%Z, reg).

(** [runDiscovery] on the results of its three sources; the answer is
    [(total_discovered, new_endpoints)]. *)
Definition runDiscovery (now : Z)
    (seedResults ecosystemResults githubResults : list DiscoveryResult)
    (reg : Registry) : (Z * Z) * Registry :=
  let allDiscoveries :=
    (seedResults ++ ecosystemResults ++ githubResults)%list in
  let unique := uniqueDiscoveries allDiscoveries in
  let (newCount, reg') := saveDiscoveredEndpoints now unique reg in
  ((Z.of_nat (List.length unique), newCount), reg').

(** ** Sample requests and endpoints *)

Module Fixture.

Definition env : Env :=
  {| INTERNAL_API_KEY := "secret"; FACILITATOR_URL := None |}.

Definition internal : Headers :=
  {| x_internal_api_key := Some "secret";
     x_payment_proof := None; x_payment_amount := None |}.

Definition unpaid : Headers :=
  {| x_internal_api_key := None;
     x_payment_proof := None; x_payment_amount := None |}.

(** An external request with a payment proof and the given amount text. *)
Definition paying (proof amount : string) : Headers :=
  {| x_internal_api_key := None;
     x_payment_proof := Some proof; x_payment_amount := Some amount |}.

(** A reading of the two amount texts the samples use; every other text
    is not a number. *)
Definition parse (s : string) : JSNumber :=
  if String.eqb s "0.50" then Finite 0.5
  else if String.eqb s "0.10" then Finite 0.1
  else NaN.

Definition endpoint (id : Z) (url : string) : Endpoint :=
  {| e_id := id; e_url := url; e_name := "agent";
     e_description := None; e_author := None; e_organization := None;
     e_discovered_at := 0; e_last_seen_at := 0;
     e_discovery_source := "manual"; e_is_active := true;
     e_last_checked_at := None |}.

Definition alpha : string := "https://alpha.example".
Definition beta : string := "https://beta.example".
Definition gamma : string := "https://gamma.example".

(** Two tested endpoints with the same score, [alpha] first, and an
    endpoint that is not in the table. *)
Definition registry : Registry :=
  {| endpoints := [endpoint 1 alpha; endpoint 2 beta];
     endpoint_tests := [];
     trust_scores :=
       [calculateTrustScoreForEndpoint (40 * Sample.day) 1
                                       [Sample.unsampled_success];
        calculateTrustScoreForEndpoint (40 * Sample.day) 2
                                       [Sample.unsampled_success]] |}.

(** The same endpoints, of which only [beta] has a score yet. *)
Definition half_scored : Registry :=
  {| endpoints := [endpoint 1 alpha; endpoint 2 beta];
     endpoint_tests := [];
     trust_scores :=
       [calculateTrustScoreForEndpoint (40 * Sample.day) 2 []] |}.

End Fixture.

(** * Properties *)

(** ** Comparisons and rounding *)

Lemma geb_true (x y : Q) : JS.geb x y = true <-> y <= x.
Proof. unfold JS.geb. apply Qle_bool_iff. Qed.

Lemma geb_false (x y : Q) : JS.geb x y = false <-> x < y.
Proof.
  unfold JS.geb. split; intro H.
  - apply Qnot_le_lt. intro Hle. apply Qle_bool_iff in Hle. congruence.
  - destruct (Qle_bool y x) eqn:E; [|reflexivity].
    apply Qle_bool_iff in E. lra.
Qed.

Lemma ltb_true (x y : Q) : JS.ltb x y = true <-> x < y.
Proof.
  unfold JS.ltb. rewrite negb_true_iff. apply (geb_false x y).
Qed.

Lemma ltb_false (x y : Q) : JS.ltb x y = false <-> y <= x.
Proof.
  unfold JS.ltb. rewrite negb_false_iff. apply (geb_true x y).
Qed.

(** Case analysis on the next comparison of an if-chain. *)
Ltac split_geb :=
  match goal with
  | |- context [JS.geb ?x ?y] =>
      let E := fresh "E" in
      destruct (JS.geb x y) eqn:E;
      [apply geb_true in E | apply geb_false in E]
  | |- context [JS.ltb ?x ?y] =>
      let E := fresh "E" in
      destruct (JS.ltb x y) eqn:E;
      [apply ltb_true in E | apply ltb_false in E]
  end.

Lemma round_comp (x y : Q) : x == y -> JS.round x == JS.round y.
Proof.
  intro H. unfold JS.round.
  rewrite (Qfloor_comp (x + (1 # 2)) (y + (1 # 2))); [reflexivity|].
  rewrite H. reflexivity.
Qed.

Lemma round1_comp (x y : Q) : x == y -> JS.round1 x == JS.round1 y.
Proof.
  intro H. unfold JS.round1.
  rewrite (round_comp (x * 10) (y * 10)); [reflexivity|].
  rewrite H. reflexivity.
Qed.

Lemma round1_mono (x y : Q) : x <= y -> JS.round1 x <= JS.round1 y.
Proof.
  intro H. unfold JS.round1, JS.round.
  assert (Hz : (Qfloor (x * 10 + (1 # 2)) <= Qfloor (y * 10 + (1 # 2)))%Z).
  { apply Qfloor_resp_le. lra. }
  assert (Hq : inject_Z (Qfloor (x * 10 + (1 # 2)))
               <= inject_Z (Qfloor (y * 10 + (1 # 2)))).
  { rewrite <- Zle_Qle. exact Hz. }
  unfold Qdiv. apply Qmult_le_compat_r; [exact Hq | discriminate].
Qed.


Lemma inject_Z_nonneg (n : Z) : (0 <= n)%Z -> 0 <= inject_Z n.
Proof. intro H. change 0 with (inject_Z 0). rewrite <- Zle_Qle. exact H. Qed.

(** ** Grade and recommendation bands *)

Lemma calculateGrade_band (score : Q) :
  Spec.grade_band (calculateGrade score) score.
Proof.
  unfold calculateGrade, Spec.grade_band.
  repeat split_geb;
    (do 2 eexists; split;
     [ simpl; repeat (first [left; reflexivity | right])
     | split; simpl; first [assumption | exact I] ]).
Qed.

Lemma grade_band_unique (g : string) (score : Q) :
  Spec.grade_band g score -> calculateGrade score = g.
Proof.
  intros (lo & hi & Hin & Hlo & Hhi). simpl in Hin.
  repeat (destruct Hin as [Hin | Hin];
          [ injection Hin as <- <- <-; simpl in Hlo, Hhi;
            unfold calculateGrade; repeat split_geb;
            first [reflexivity | exfalso; lra]
          | ]).
  contradiction.
Qed.

Lemma calculateRecommendation_band (score : Q) :
  Spec.recommendation_band (calculateRecommendation score) score.
Proof.
  unfold calculateRecommendation.
  repeat split_geb; simpl; unfold Spec.in_band; auto.
Qed.

Lemma recommendation_band_unique (r : Recommendation) (score : Q) :
  Spec.recommendation_band r score -> calculateRecommendation score = r.
Proof.
  unfold calculateRecommendation.
  destruct r; intros [Hlo Hhi]; simpl in Hlo, Hhi;
    repeat split_geb; first [reflexivity | exfalso; lra].
Qed.

(** C8.  For every score the grade function returns the one grade whose
    band (at least 98 A+, 93 A, 90 A-, 87 B+, 83 B, 80 B-, 77 C+, 73 C,
    70 C-, 60 D, else F) holds the score, and the recommendation function
    the one recommendation whose band (at least 85 TRUSTED, 65 CAUTION,
    else AVOID) holds it: a score lies in the band of [g] exactly when
    [calculateGrade] returns [g], so the bands cover every score and no two
    of them overlap. *)
Theorem grade_and_recommendation_bands (score : Q) :
  (forall g, Spec.grade_band g score <-> calculateGrade score = g) /\
  (forall r, Spec.recommendation_band r score
             <-> calculateRecommendation score = r) /\
  (exists g, Spec.grade_band g score
             /\ forall g', Spec.grade_band g' score -> g' = g) /\
  (exists r, Spec.recommendation_band r score
             /\ forall r', Spec.recommendation_band r' score -> r' = r).
Proof.
  assert (Hg : forall g, Spec.grade_band g score <-> calculateGrade score = g).
  { intro g. split.
    - apply grade_band_unique.
    - intros <-. apply calculateGrade_band. }
  assert (Hr : forall r, Spec.recommendation_band r score
                         <-> calculateRecommendation score = r).
  { intro r. split.
    - apply recommendation_band_unique.
    - intros <-. apply calculateRecommendation_band. }
  repeat split; try (apply Hg || apply Hr).
  - exists (calculateGrade score). split.
    + apply calculateGrade_band.
    + intros g' Hg'. symmetry. apply grade_band_unique. exact Hg'.
  - exists (calculateRecommendation score). split.
    + apply calculateRecommendation_band.
    + intros r' Hr'. symmetry. apply recommendation_band_unique. exact Hr'.
Qed.

(** ** Sub-scores of windows without a usable latency sample *)

Lemma filter_none {A : Type} (f : A -> bool) (l : list A) :
  (forall a, In a l -> f a = false) -> filter f l = [].
Proof.
  induction l as [|a l IH]; intro H; simpl; [reflexivity|].
  rewrite (H a (or_introl eq_refl)). apply IH.
  intros b Hb. apply H. right. exact Hb.
Qed.

Lemma calculateSpeedScore_0 : calculateSpeedScore 0 == 100.
Proof. vm_compute. reflexivity. Qed.

(** [lra] after division by a literal is turned into multiplication. *)
Ltac qlra :=
  unfold Qdiv in *;
  repeat match goal with
         | |- context [/ ?c] =>
             let v := eval vm_compute in (/ c) in change (/ c) with v
         end;
  lra.

Lemma calculateSpeedScore_max (ms : Q) :
  0 <= ms -> calculateSpeedScore ms <= 100.
Proof.
  intro H. unfold calculateSpeedScore.
  repeat split_geb; try qlra.
  apply Q.max_lub; qlra.
Qed.

Lemma calculateAvgResponseTime_no_sample (tests : list EndpointTest) :
  (forall t, In t tests ->
             is_successful t && JS.truthy_num (response_time_ms t) = false) ->
  calculateAvgResponseTime tests = 0.
Proof.
  intro H. unfold calculateAvgResponseTime.
  rewrite (filter_none _ tests H). reflexivity.
Qed.

Lemma calculateUptimeScore_0 (p : Q) : p == 0 -> calculateUptimeScore p == 0.
Proof.
  intro H. unfold calculateUptimeScore.
  repeat split_geb; try (exfalso; lra).
  rewrite H. reflexivity.
Qed.

Lemma zero_share {A : Type} (n : Q) : JS.length (@nil A) / n * 100 == 0.
Proof.
  change (JS.length (@nil A)) with 0. unfold Qdiv.
  rewrite Qmult_0_l. apply Qmult_0_l.
Qed.

Lemma calculateUptime_all_failed (tests : list EndpointTest) :
  (forall t, In t tests -> is_successful t = false) ->
  calculateUptime tests == 0.
Proof.
  intro H. unfold calculateUptime. destruct tests as [|t0 rest].
  - reflexivity.
  - rewrite (filter_none _ _ H). apply zero_share.
Qed.

Lemma calculateAccuracyScore_all_failed (tests : list EndpointTest) :
  (forall t, In t tests -> is_successful t = false) ->
  calculateAccuracyScore tests == 0.
Proof.
  intro H. unfold calculateAccuracyScore. destruct tests as [|t0 rest].
  - reflexivity.
  - rewrite (filter_none _ (t0 :: rest)).
    + cbv zeta. set (n := JS.length (t0 :: rest)).
      pose proof (zero_share (A:=EndpointTest) n) as Hp.
      repeat split_geb; try (exfalso; lra).
      rewrite Hp. reflexivity.
    + intros t Ht. rewrite (H t Ht). reflexivity.
Qed.

Lemma calculateAgeScore_nonneg (now first : Z) :
  (first <= now)%Z -> 0 <= calculateAgeScore now first.
Proof.
  intro H. unfold calculateAgeScore.
  assert (Hs : 0 <= inject_Z (now - first)) by (apply inject_Z_nonneg; lia).
  set (s := inject_Z (now - first)) in *.
  assert (Hd : s / (24 * 60 * 60) == s * (1 # 86400)) by reflexivity.
  repeat split_geb; rewrite Hd in *; try qlra.
  assert (Hm : 0 <= Qmin 5 ((s * (1 # 86400) - 30) / 30))
    by (apply Q.min_glb; qlra).
  lra.
Qed.

(** ** The clock in the trust score *)







(** ** What [handleAgentDiscrepancy] does to each table *)

(** The INSERT of the handler names neither [prediction_id] nor
    [evaluation_id], so it fails the first NOT NULL constraint whatever
    the request and whatever the tables hold. *)
Lemma discrepancy_insert_fails
    (body : PredictionDiscrepancyRequest) (evaluator_url target_url : string)
    (predicted_score actual_score : Q) (db : DB) :
  insert_discrepancy
    (discrepancy_values body evaluator_url target_url
                        predicted_score actual_score) db
  = (Thrown (NotNullFailed "prediction_discrepancies.prediction_id"), db).
Proof. reflexivity. Qed.

(** Where the update block sits in the handler: for a request that passes
    the presence test, the handler is its INSERT followed, when the INSERT
    went through, by [update_prediction_accuracy]. *)
Lemma discrepancy_after_insert
    (body : PredictionDiscrepancyRequest) (evaluator_url target_url : string)
    (predicted_score actual_score : Q) (db : DB) :
  accepted_discrepancy body = true ->
  d_evaluator_url body = Some evaluator_url ->
  d_target_url body = Some target_url ->
  d_predicted_score body = Some predicted_score ->
  d_actual_score body = Some actual_score ->
  handleAgentDiscrepancy body db
  = match insert_discrepancy
            (discrepancy_values body evaluator_url target_url
                                predicted_score actual_score) db with
    | (Done last_row_id, db') =>
        (Stored "Discrepancy analysis received and stored" last_row_id
                (Some (learning_insights (d_accuracy_category body))),
         exec (update_prediction_accuracy evaluator_url body) db')
    | (Thrown error, db') => (Failed error, db')
    end.
Proof.
  intros Hacc Hu Ht Hp Ha.
  unfold handleAgentDiscrepancy, accepted_discrepancy in *.
  rewrite Hu, Ht, Hp, Ha in *.
  destruct (JS.truthy_str (Some evaluator_url)); [|discriminate].
  destruct (JS.truthy_str (Some target_url)); [|discriminate].
  cbn [negb orb]. unfold bind, ret, exec.
  destruct (insert_discrepancy _ db) as [[id | e] db']; [|reflexivity].
  destruct (update_prediction_accuracy evaluator_url body db') as [[] db''].
  reflexivity.
Qed.

Ltac run_discrepancy body :=
  unfold handleAgentDiscrepancy, accepted_discrepancy, exec, bind, ret in *;
  destruct (d_evaluator_url body) as [[|c0 u]|];
  destruct (d_target_url body) as [[|c1 t]|];
  destruct (d_predicted_score body) as [p|];
  destruct (d_actual_score body) as [a|];
  cbn [JS.truthy_str negb orb andb fst snd] in *;
  try rewrite discrepancy_insert_fails;
  try discriminate.

Lemma discrepancy_rejected (body : PredictionDiscrepancyRequest) (db : DB) :
  accepted_discrepancy body = false ->
  exists error, handleAgentDiscrepancy body db = (Rejected error, db).
Proof.
  intro H. run_discrepancy body; eexists; reflexivity.
Qed.

Lemma discrepancy_accepted (body : PredictionDiscrepancyRequest) (db : DB) :
  accepted_discrepancy body = true ->
  handleAgentDiscrepancy body db
  = (Failed (NotNullFailed "prediction_discrepancies.prediction_id"), db).
Proof.
  intro H. run_discrepancy body. reflexivity.
Qed.

Lemma discrepancy_keeps_database
    (body : PredictionDiscrepancyRequest) (db : DB) :
  exec (handleAgentDiscrepancy body) db = db.
Proof.
  destruct (accepted_discrepancy body) eqn:H.
  - unfold exec. rewrite (discrepancy_accepted body db H). reflexivity.
  - destruct (discrepancy_rejected body db H) as [e He].
    unfold exec. rewrite He. reflexivity.
Qed.

(** The same, along a stream of requests. *)
Lemma record_all_cons (body : PredictionDiscrepancyRequest)
    (bodies : list PredictionDiscrepancyRequest) (db : DB) :
  record_all (body :: bodies) db
  = record_all bodies (exec (handleAgentDiscrepancy body) db).
Proof. reflexivity. Qed.

Lemma record_all_keeps_database
    (bodies : list PredictionDiscrepancyRequest) (db : DB) :
  record_all bodies db = db.
Proof.
  revert db. induction bodies as [|body bodies IH]; intro db; [reflexivity|].
  rewrite record_all_cons, discrepancy_keeps_database. apply IH.
Qed.

(** ** What the update block does to each table *)

(** The UPDATE leaves the identity and the reputation score of every row
    alone. *)
Lemma set_prediction_stats_map
    (n : Z) (x y z : Q) (id : Z) (rows : list EvaluatorRow) :
  map (fun r => (ev_id r, ev_evaluator_url r, trust_score r))
      (map (fun r => if Z.eqb (ev_id r) id
                     then set_prediction_stats n x y z r else r) rows)
  = map (fun r => (ev_id r, ev_evaluator_url r, trust_score r)) rows.
Proof.
  rewrite map_map. apply map_ext. intro r.
  destruct (Z.eqb (ev_id r) id); reflexivity.
Qed.

Lemma update_keeps_trust
    (url : string) (body : PredictionDiscrepancyRequest) (db : DB) :
  map (fun r => (ev_id r, ev_evaluator_url r, trust_score r))
      (evaluators (exec (update_prediction_accuracy url body) db))
  = map (fun r => (ev_id r, ev_evaluator_url r, trust_score r))
        (evaluators db).
Proof.
  unfold update_prediction_accuracy, exec, bind, ret, select_evaluator,
         update_evaluator.
  destruct (find_evaluator url (evaluators db)); cbn [snd evaluators].
  - apply set_prediction_stats_map.
  - reflexivity.
Qed.

Lemma update_keeps_other_tables
    (url : string) (body : PredictionDiscrepancyRequest) (db : DB) :
  let db' := exec (update_prediction_accuracy url body) db in
  agent_evaluations db' = agent_evaluations db /\
  evaluation_predictions db' = evaluation_predictions db /\
  prediction_discrepancies db' = prediction_discrepancies db /\
  evaluator_reputation_history db' = evaluator_reputation_history db.
Proof.
  unfold update_prediction_accuracy, exec, bind, ret, select_evaluator,
         update_evaluator.
  destruct (find_evaluator url (evaluators db)); repeat split.
Qed.

Lemma update_unregistered
    (url : string) (body : PredictionDiscrepancyRequest) (db : DB) :
  find_evaluator url (evaluators db) = None ->
  exec (update_prediction_accuracy url body) db = db.
Proof.
  intro Hfind.
  unfold update_prediction_accuracy, exec, bind, ret, select_evaluator.
  rewrite Hfind. reflexivity.
Qed.


Lemma update_evaluators
    (url : string) (body : PredictionDiscrepancyRequest) (db : DB)
    (ev : EvaluatorRow) :
  find_evaluator url (evaluators db) = Some ev ->
  evaluators (exec (update_prediction_accuracy url body) db)
  = map (fun r => if Z.eqb (ev_id r) (ev_id ev)
                  then set_prediction_stats
                         (newTotalPredictions ev)
                         (newAvgError ev (d_absolute_error body))
                         (newGradeAccuracy ev (d_grade_match body))
                         (1 - newAvgError ev (d_absolute_error body) / 100)
                         r
                  else r)
        (evaluators db).
Proof.
  intro Hfind.
  unfold update_prediction_accuracy, exec, bind, ret, select_evaluator,
         update_evaluator.
  rewrite Hfind. reflexivity.
Qed.


(** ** The reputation score and its history *)






(** C3, as the code has it.  Nothing that records a discrepancy writes
    [evaluator_reputation_history]: the table is the same after any stream
    of requests to the handler and after the handler's update of the
    evaluator's running averages, so no snapshot is appended and none is
    edited or deleted. *)
Theorem history_kept_by_discrepancies
    (bodies : list PredictionDiscrepancyRequest)
    (body : PredictionDiscrepancyRequest) (url : string) (db : DB) :
  evaluator_reputation_history (record_all bodies db)
  = evaluator_reputation_history db /\
  evaluator_reputation_history (exec (handleAgentDiscrepancy body) db)
  = evaluator_reputation_history db /\
  evaluator_reputation_history (exec (update_prediction_accuracy url body) db)
  = evaluator_reputation_history db.
Proof.
  split; [rewrite record_all_keeps_database; reflexivity|].
  split; [rewrite discrepancy_keeps_database; reflexivity|].
  apply update_keeps_other_tables.
Qed.

(** C3, as the claim states it, fails: a well-formed report for a
    registered evaluator leaves the history without any snapshot, and so
    does the update of the running averages itself, which moves the
    evaluator's prediction count from 0 to 1 and appends nothing. *)
Lemma discrepancy_appends_no_snapshot :
  let body := Sample.discrepancy 2 true excellent in
  let handled := exec (handleAgentDiscrepancy body) Sample.registered_db in
  let updated :=
    exec (update_prediction_accuracy Sample.url body) Sample.registered_db in
  accepted_discrepancy body = true /\
  evaluator_reputation_history handled = [] /\
  map total_predictions (evaluators Sample.registered_db) = [0%Z] /\
  map total_predictions (evaluators updated) = [1%Z] /\
  evaluator_reputation_history updated = [] /\
  List.length (evaluator_reputation_history updated)
  <> S (List.length (evaluator_reputation_history Sample.registered_db)).
Proof. repeat split. discriminate. Qed.

(** ** Evaluators without a profile *)

(** C2, as the code has it.  A report for an evaluator without a profile
    creates no profile: after the handler ran, the [evaluators] table is
    the one from before and still has no row for the evaluator; and the
    handler's update of the running averages, finding no row, changes
    nothing at all. *)
Theorem discrepancy_needs_registered_evaluator
    (body : PredictionDiscrepancyRequest) (db : DB) (url : string) :
  d_evaluator_url body = Some url ->
  find_evaluator url (evaluators db) = None ->
  evaluators (exec (handleAgentDiscrepancy body) db) = evaluators db /\
  find_evaluator url (evaluators (exec (handleAgentDiscrepancy body) db))
  = None /\
  exec (update_prediction_accuracy url body) db = db.
Proof.
  intros _ Hnone. rewrite discrepancy_keeps_database.
  split; [reflexivity|]. split; [exact Hnone|].
  apply update_unregistered. exact Hnone.
Qed.

Lemma discrepancy_needs_registered_evaluator_witness :
  evaluators (exec (handleAgentDiscrepancy
                      (Sample.discrepancy 2 true excellent))
                   Sample.empty_db) = [] /\
  exec (update_prediction_accuracy Sample.url
                                   (Sample.discrepancy 2 true excellent))
       Sample.empty_db = Sample.empty_db.
Proof.
  destruct (discrepancy_needs_registered_evaluator
              (Sample.discrepancy 2 true excellent) Sample.empty_db
              Sample.url eq_refl eq_refl) as (Hev & _ & Hupd).
  split; [exact Hev | exact Hupd].
Defined.

(** C2, as the claim states it, fails: after a well-formed 'excellent'
    report with error 2 for an evaluator that has no profile, there still
    is no profile, so none with score 510 and one prediction; the same
    holds after the update of the running averages alone. *)
Lemma unregistered_evaluator_gets_no_profile :
  let body := Sample.discrepancy 2 true excellent in
  let handled := exec (handleAgentDiscrepancy body) Sample.empty_db in
  let updated :=
    exec (update_prediction_accuracy Sample.url body) Sample.empty_db in
  accepted_discrepancy body = true /\
  find_evaluator Sample.url (evaluators Sample.empty_db) = None /\
  evaluators handled = [] /\
  evaluators updated = [] /\
  ~ (exists ev', find_evaluator Sample.url (evaluators handled) = Some ev'
                 /\ trust_score ev' = 510%Z
                 /\ total_predictions ev' = 1%Z) /\
  ~ (exists ev', find_evaluator Sample.url (evaluators updated) = Some ev'
                 /\ trust_score ev' = 510%Z
                 /\ total_predictions ev' = 1%Z).
Proof.
  repeat split; intros (ev' & Hfind & _); discriminate Hfind.
Qed.

(** ** The stored accuracy category *)






(** ** The accuracy rate *)





(** ** Running averages *)

(** C6 at its own scenario: a registered evaluator with counters at zero
    and three well-formed reports with absolute errors 2, 8 and 11, two of
    them with matching grades.  Each report is answered with status 500,
    because the INSERT leaves [prediction_id] unbound, and the profile
    stays at count 0 and average 0, where the reports are three, the mean
    of their errors is 7 and two of them have matching grades. *)
Theorem running_average_not_updated :
  let bodies := [Sample.discrepancy 2 true excellent;
                 Sample.discrepancy 8 false good;
                 Sample.discrepancy 11 true fair] in
  Forall (fun b => accepted_discrepancy b = true) bodies /\
  Forall (fun b =>
            fst (handleAgentDiscrepancy b Sample.registered_db)
            = Failed (NotNullFailed "prediction_discrepancies.prediction_id")
            /\ status (fst (handleAgentDiscrepancy b Sample.registered_db))
               = 500%Z) bodies /\
  find_evaluator Sample.url
    (evaluators (record_all bodies Sample.registered_db))
  = Some Sample.fresh_evaluator /\
  total_predictions Sample.fresh_evaluator = 0%Z /\
  avg_absolute_error Sample.fresh_evaluator = 0 /\
  List.length bodies = 3%nat /\
  Qsum (map d_absolute_error bodies) / JS.length bodies == 7 /\
  count_true (map d_grade_match bodies) = 2%Z.
Proof.
  cbv zeta. repeat split; try (repeat constructor).
Qed.

(** ** Validation of predictions *)





(** * Further properties of the scoring functions *)

(** [lra] with literal divisors, in the goal and in the hypotheses. *)
Ltac qlra_all :=
  unfold Qdiv in *;
  repeat match goal with
         | |- context [/ ?c] =>
             let v := eval vm_compute in (/ c) in change (/ c) with v
         | H : context [/ ?c] |- _ =>
             let v := eval vm_compute in (/ c) in change (/ c) with v in H
         end;
  lra.

(** Case analysis on every [Qmax] and [Qmin] of the goal. *)
Ltac split_minmax :=
  repeat match goal with
         | |- context [Qmax ?a ?b] =>
             let H := fresh "Hmax" in
             let E := fresh "Emax" in
             destruct (Q.max_spec_le a b) as [[H E] | [H E]];
             rewrite E; clear E
         | |- context [Qmin ?a ?b] =>
             let H := fresh "Hmin" in
             let E := fresh "Emin" in
             destruct (Q.min_spec_le a b) as [[H E] | [H E]];
             rewrite E; clear E
         end.

(** X1.  The uptime score never decreases when the uptime percentage
    grows: the five segments join without a drop. *)
Theorem calculateUptimeScore_monotone (p1 p2 : Q) :
  p1 <= p2 -> calculateUptimeScore p1 <= calculateUptimeScore p2.
Proof.
  intro H. unfold calculateUptimeScore.
  repeat split_geb; qlra_all.
Qed.

Lemma calculateUptimeScore_monotone_witness :
  calculateUptimeScore 94 <= calculateUptimeScore 95.
Proof.
  apply (calculateUptimeScore_monotone 94 95). vm_compute. discriminate.
Defined.

(** X2.  An uptime percentage between 0 and 100 scores between 0 and 100,
    and a percentage of 100 scores exactly 100. *)
Theorem calculateUptimeScore_range (p : Q) :
  0 <= p <= 100 ->
  0 <= calculateUptimeScore p <= 100 /\ calculateUptimeScore 100 == 100.
Proof.
  intros [H0 H100]. split; [|vm_compute; reflexivity].
  unfold calculateUptimeScore.
  repeat split_geb; split; qlra_all.
Qed.

Lemma calculateUptimeScore_range_witness :
  0 <= calculateUptimeScore 92 <= 100.
Proof.
  apply (calculateUptimeScore_range 92).
  split; vm_compute; discriminate.
Defined.

(** X3.  The speed score never increases when the mean latency grows, for
    every pair of latencies. *)
Theorem calculateSpeedScore_antitone (l1 l2 : Q) :
  l1 <= l2 -> calculateSpeedScore l2 <= calculateSpeedScore l1.
Proof.
  intro H. unfold calculateSpeedScore.
  repeat split_geb; split_minmax; qlra_all.
Qed.

Lemma calculateSpeedScore_antitone_witness :
  calculateSpeedScore 2500 <= calculateSpeedScore 1999.
Proof.
  apply (calculateSpeedScore_antitone 1999 2500). vm_compute. discriminate.
Defined.

(** X4.  The speed score is never negative, whatever the latency; it is at
    most 100 for a non-negative latency, and it is 0 from 4000 ms on. *)
Theorem calculateSpeedScore_floor (ms : Q) :
  0 <= calculateSpeedScore ms /\
  (0 <= ms -> calculateSpeedScore ms <= 100) /\
  (4000 <= ms -> calculateSpeedScore ms == 0).
Proof.
  unfold calculateSpeedScore. repeat split.
  - repeat split_geb; split_minmax; qlra_all.
  - intro H. repeat split_geb; split_minmax; qlra_all.
  - intro H. repeat split_geb; split_minmax; qlra_all.
Qed.

Lemma calculateSpeedScore_floor_witness :
  calculateSpeedScore 9000 == 0 /\ calculateSpeedScore 150 <= 100.
Proof.
  destruct (calculateSpeedScore_floor 9000) as (_ & _ & Hzero).
  destruct (calculateSpeedScore_floor 150) as (_ & Hmax & _).
  split.
  - apply Hzero. vm_compute. discriminate.
  - apply Hmax. vm_compute. discriminate.
Defined.

(** ** Ratios of counts *)

Lemma length_nonneg {A : Type} (l : list A) : 0 <= JS.length l.
Proof. unfold JS.length. apply inject_Z_nonneg. lia. Qed.

Lemma length_pos {A : Type} (a : A) (l : list A) : 0 < JS.length (a :: l).
Proof.
  unfold JS.length. change 0 with (inject_Z 0). rewrite <- Zlt_Qlt.
  cbn [List.length]. lia.
Qed.

Lemma length_filter_le {A : Type} (f : A -> bool) (l : list A) :
  JS.length (filter f l) <= JS.length l.
Proof.
  unfold JS.length. rewrite <- Zle_Qle. apply inj_le. apply filter_length_le.
Qed.

(** A part over a non-empty whole, as a percentage. *)
Lemma percent_range (k n : Q) :
  0 <= k -> k <= n -> 0 < n -> 0 <= k / n * 100 <= 100.
Proof.
  intros Hk Hkn Hn.
  assert (H0 : 0 <= k / n) by (apply Qle_shift_div_l; [exact Hn | lra]).
  assert (H1 : k / n <= 1) by (apply Qle_shift_div_r; [exact Hn | lra]).
  generalize dependent (k / n). intros r H0 H1. split; lra.
Qed.

(** X5.  The uptime percentage of any window lies between 0 and 100; it is
    0 for the empty window and 100 for a non-empty window whose tests all
    succeeded. *)
Theorem calculateUptime_range (tests : list EndpointTest) :
  0 <= calculateUptime tests <= 100 /\
  (tests = [] -> calculateUptime tests = 0) /\
  (tests <> [] -> (forall t, In t tests -> is_successful t = true) ->
   calculateUptime tests == 100).
Proof.
  split; [|split].
  - destruct tests as [|t0 rest]; [split; cbn; lra|].
    unfold calculateUptime. apply percent_range.
    + apply length_nonneg.
    + apply length_filter_le.
    + apply length_pos.
  - intros ->. reflexivity.
  - intros Hne Hall. destruct tests as [|t0 rest]; [congruence|].
    unfold calculateUptime.
    assert (Hf : filter is_successful (t0 :: rest) = t0 :: rest).
    { apply forallb_filter_id. apply forallb_forall. exact Hall. }
    rewrite Hf. pose proof (length_pos t0 rest) as Hpos.
    generalize dependent (JS.length (t0 :: rest)). intros n Hn.
    field. intro Hz. rewrite Hz in Hn. apply (Qlt_irrefl 0). exact Hn.
Qed.

Lemma calculateUptime_range_witness :
  calculateUptime [Sample.unsampled_success] == 100.
Proof.
  destruct (calculateUptime_range [Sample.unsampled_success])
    as (_ & _ & Hall).
  apply Hall; [discriminate|].
  intros t [<- | []]. reflexivity.
Defined.

(** X6.  The accuracy score of any window lies between 0 and 100. *)
Theorem calculateAccuracyScore_range (tests : list EndpointTest) :
  0 <= calculateAccuracyScore tests <= 100.
Proof.
  destruct tests as [|t0 rest]; [split; cbn; lra|].
  unfold calculateAccuracyScore. cbv zeta.
  pose proof (percent_range
                (JS.length
                   (filter (fun t => is_successful t
                                     && JS.truthy_str (response_sample t))
                           (t0 :: rest)))
                (JS.length (t0 :: rest))
                (length_nonneg _) (length_filter_le _ _) (length_pos t0 rest))
    as Hp.
  unfold Qdiv in Hp |- *.
  match type of Hp with 0 <= ?p <= 100 => generalize dependent p end.
  intros p [Hp0 Hp1] .
  repeat split_geb; split; qlra_all.
Qed.

(** ** The age score *)

(** X7.  For a fixed first-tested timestamp the age score never decreases
    as the clock advances. *)
Theorem calculateAgeScore_monotone (now1 now2 first : Z) :
  (now1 <= now2)%Z ->
  calculateAgeScore now1 first <= calculateAgeScore now2 first.
Proof.
  intro H. unfold calculateAgeScore. cbv zeta.
  assert (Hs : inject_Z (now1 - first) <= inject_Z (now2 - first))
    by (rewrite <- Zle_Qle; lia).
  generalize dependent (inject_Z (now1 - first)).
  generalize dependent (inject_Z (now2 - first)).
  intros s2 s1 Hs.
  repeat split_geb; split_minmax; qlra_all.
Qed.

Lemma calculateAgeScore_monotone_witness :
  calculateAgeScore (6 * Sample.day) 0 <= calculateAgeScore (8 * Sample.day) 0.
Proof.
  apply (calculateAgeScore_monotone (6 * Sample.day) (8 * Sample.day) 0).
  vm_compute. discriminate.
Defined.

(** X8.  The age score never exceeds 100; it is not negative once the
    first test is not in the future; and it is exactly 100 from 180 days
    on, where the slow credit beyond 30 days is capped. *)
Theorem calculateAgeScore_range (now first : Z) :
  calculateAgeScore now first <= 100 /\
  ((first <= now)%Z -> 0 <= calculateAgeScore now first) /\
  ((first + 180 * 86400 <= now)%Z -> calculateAgeScore now first == 100).
Proof.
  split; [|split].
  - unfold calculateAgeScore. cbv zeta.
    generalize (inject_Z (now - first)). intro s.
    repeat split_geb; split_minmax; qlra_all.
  - apply calculateAgeScore_nonneg.
  - intro H. unfold calculateAgeScore. cbv zeta.
    assert (Hs : inject_Z (180 * 86400) <= inject_Z (now - first))
      by (rewrite <- Zle_Qle; lia).
    change (inject_Z (180 * 86400)) with 15552000 in Hs.
    generalize dependent (inject_Z (now - first)). intros s Hs.
    repeat split_geb; split_minmax; qlra_all.
Qed.

Lemma calculateAgeScore_range_witness :
  0 <= calculateAgeScore (10 * Sample.day) 0 /\
  calculateAgeScore (200 * Sample.day) 0 == 100.
Proof.
  destruct (calculateAgeScore_range (10 * Sample.day) 0) as (_ & Hpos & _).
  destruct (calculateAgeScore_range (200 * Sample.day) 0) as (_ & _ & Hcap).
  split.
  - apply Hpos. vm_compute. discriminate.
  - apply Hcap. vm_compute. discriminate.
Defined.

(** ** The composite score *)

Lemma round1_range (x : Q) : 0 <= x <= 100 -> 0 <= JS.round1 x <= 100.
Proof.
  intros [H0 H1].
  assert (E0 : JS.round1 0 == 0) by (vm_compute; reflexivity).
  assert (E1 : JS.round1 100 == 100) by (vm_compute; reflexivity).
  split.
  - rewrite <- E0. apply round1_mono. exact H0.
  - rewrite <- E1. apply round1_mono. exact H1.
Qed.

Lemma round1_one_decimal (x : Q) : exists k : Z, JS.round1 x * 10 == inject_Z k.
Proof.
  exists (Qfloor (x * 10 + (1 # 2))). unfold JS.round1, JS.round.
  generalize (inject_Z (Qfloor (x * 10 + (1 # 2)))). intro q. field.
Qed.

(** X9.  The overall score of four sub-scores between 0 and 100 lies
    between 0 and 100, has at most one decimal, and does not decrease when
    a sub-score grows. *)
Theorem calculateOverallScore_range (u s a g : Q) :
  0 <= u <= 100 -> 0 <= s <= 100 -> 0 <= a <= 100 -> 0 <= g <= 100 ->
  0 <= calculateOverallScore u s a g <= 100 /\
  (exists k : Z, calculateOverallScore u s a g * 10 == inject_Z k) /\
  (forall u' s' a' g',
     u <= u' -> s <= s' -> a <= a' -> g <= g' ->
     calculateOverallScore u s a g <= calculateOverallScore u' s' a' g').
Proof.
  intros Hu Hs Ha Hg. unfold calculateOverallScore. cbv zeta.
  split; [|split].
  - apply round1_range. split; lra.
  - apply round1_one_decimal.
  - intros u' s' a' g' Hu' Hs' Ha' Hg'. apply round1_mono. lra.
Qed.

Lemma calculateOverallScore_range_witness :
  0 <= calculateOverallScore 99 97 100 95 <= 100.
Proof.
  apply (calculateOverallScore_range 99 97 100 95);
    split; vm_compute; discriminate.
Defined.

(** ** The latency sample *)

Lemma filter_filter {A : Type} (f g : A -> bool) (l : list A) :
  filter f (filter g l) = filter (fun a => g a && f a) l.
Proof.
  induction l as [|a l IH]; [reflexivity|]. cbn [filter].
  destruct (g a); cbn [filter andb]; [destruct (f a)|]; rewrite IH; reflexivity.
Qed.

Lemma fold_sum_bounds (f : EndpointTest -> Q) (lo hi : Q)
    (l : list EndpointTest) :
  (forall t, In t l -> lo <= f t <= hi) ->
  forall acc k : Q,
    lo * k <= acc <= hi * k ->
    lo * (k + JS.length l)
    <= fold_left (fun sum t => sum + f t) l acc
    <= hi * (k + JS.length l).
Proof.
  induction l as [|t l IH]; intros Hall acc k Hacc.
  - change (JS.length (@nil EndpointTest)) with 0. cbn [fold_left].
    split; lra.
  - cbn [fold_left].
    assert (Hlen : JS.length (t :: l) == 1 + JS.length l).
    { unfold JS.length. cbn [List.length]. rewrite Nat2Z.inj_succ.
      unfold Z.succ. rewrite inject_Z_plus. change (inject_Z 1) with 1.
      ring. }
    destruct (Hall t (or_introl eq_refl)) as [Ht0 Ht1].
    assert (Hstep : lo * (k + 1) <= acc + f t <= hi * (k + 1)) by (split; lra).
    specialize (IH (fun t' Hin => Hall t' (or_intror Hin)) (acc + f t)
                   (k + 1) Hstep).
    rewrite Hlen. destruct IH as [IH0 IH1]. split; lra.
Qed.

Lemma or_zero_sampled (t : EndpointTest) (q : Q) :
  response_time_ms t = Some q -> JS.truthy_num (Some q) = true ->
  JS.or_zero (response_time_ms t) = q.
Proof.
  intros -> H. cbn in *. destruct (Qeq_bool q 0); [discriminate | reflexivity].
Qed.

(** X10.  The mean response time looks only at successful tests with a
    non-zero latency: failed tests and tests without a latency never move
    it.  When those latencies all lie between two bounds, so does the
    mean; with no such test it is 0. *)
Theorem calculateAvgResponseTime_sample (tests : list EndpointTest) :
  calculateAvgResponseTime tests
  = calculateAvgResponseTime (filter is_successful tests) /\
  calculateAvgResponseTime tests
  = calculateAvgResponseTime (filter sampled tests) /\
  (filter sampled tests = [] -> calculateAvgResponseTime tests = 0) /\
  (forall lo hi,
     filter sampled tests <> [] ->
     (forall t q, In t tests -> sampled t = true ->
                  response_time_ms t = Some q -> lo <= q <= hi) ->
     lo <= calculateAvgResponseTime tests <= hi).
Proof.
  split; [|split; [|split]].
  - unfold calculateAvgResponseTime. rewrite filter_filter.
    rewrite (filter_ext
               (fun a => is_successful a
                         && (is_successful a
                             && JS.truthy_num (response_time_ms a)))
               (fun t => is_successful t
                         && JS.truthy_num (response_time_ms t))).
    + reflexivity.
    + intro a. destruct (is_successful a); reflexivity.
  - unfold calculateAvgResponseTime. fold sampled. rewrite filter_filter.
    rewrite (filter_ext (fun a => sampled a && sampled a) sampled).
    + reflexivity.
    + intro a. destruct (sampled a); reflexivity.
  - intro H. unfold calculateAvgResponseTime. fold sampled. rewrite H.
    reflexivity.
  - intros lo hi Hne Hall. unfold calculateAvgResponseTime. fold sampled.
    destruct (filter sampled tests) as [|t0 rest] eqn:E; [congruence|].
    assert (Hin : forall t, In t (t0 :: rest) ->
                            lo <= JS.or_zero (response_time_ms t) <= hi).
    { intros t Ht. rewrite <- E in Ht. apply filter_In in Ht.
      destruct Ht as [Ht Hs].
      destruct (response_time_ms t) as [q|] eqn:Er.
      - rewrite <- Er.
        rewrite (or_zero_sampled t q Er).
        + exact (Hall t q Ht Hs Er).
        + unfold sampled in Hs. rewrite Er in Hs.
          apply andb_true_iff in Hs. apply Hs.
      - unfold sampled in Hs. rewrite Er in Hs.
        apply andb_true_iff in Hs. destruct Hs as [_ Hs]. discriminate Hs. }
    pose proof (fold_sum_bounds (fun t => JS.or_zero (response_time_ms t))
                  lo hi (t0 :: rest) Hin 0 0) as Hsum.
    assert (H0 : lo * 0 <= 0 <= hi * 0) by (split; lra).
    specialize (Hsum H0).
    pose proof (length_pos t0 rest) as Hpos.
    generalize dependent (JS.length (t0 :: rest)). intros n Hsum Hpos.
    destruct Hsum as [Hs0 Hs1]. split.
    + apply Qle_shift_div_l; [exact Hpos | lra].
    + apply Qle_shift_div_r; [exact Hpos | lra].
Qed.

Lemma calculateAvgResponseTime_sample_witness :
  100 <= calculateAvgResponseTime
           [Sample.failed_test; Sample.unsampled_success] <= 100.
Proof.
  destruct (calculateAvgResponseTime_sample
              [Sample.failed_test; Sample.unsampled_success])
    as (_ & _ & _ & Hb).
  apply Hb.
  - discriminate.
  - intros t q [<- | [<- | []]] Hs Hq.
    + discriminate Hs.
    + injection Hq as <-. split; vm_compute; discriminate.
Defined.

(** ** The trust score snapshot *)

Lemma fold_sum_nonneg (f : EndpointTest -> Q) (l : list EndpointTest) :
  (forall t, In t l -> 0 <= f t) ->
  forall acc, 0 <= acc -> 0 <= fold_left (fun sum t => sum + f t) l acc.
Proof.
  induction l as [|t l IH]; intros Hall acc Hacc; [exact Hacc|].
  cbn [fold_left]. apply IH.
  - intros t' Ht'. apply Hall. right. exact Ht'.
  - pose proof (Hall t (or_introl eq_refl)). lra.
Qed.

Lemma or_zero_nonneg (t : EndpointTest) :
  latency_nonneg t -> 0 <= JS.or_zero (response_time_ms t).
Proof.
  unfold latency_nonneg, JS.or_zero. intro H.
  destruct (response_time_ms t) as [q|]; [|lra].
  destruct (Qeq_bool q 0); [lra|]. apply H. reflexivity.
Qed.

Lemma calculateAvgResponseTime_nonneg (tests : list EndpointTest) :
  (forall t, In t tests -> latency_nonneg t) ->
  0 <= calculateAvgResponseTime tests.
Proof.
  intro H. unfold calculateAvgResponseTime.
  destruct (filter _ tests) as [|t0 rest] eqn:E; [lra|].
  apply Qle_shift_div_l; [apply length_pos|].
  rewrite Qmult_0_l. apply fold_sum_nonneg; [|lra].
  intros t Ht. apply or_zero_nonneg. apply H.
  rewrite <- E in Ht. apply filter_In in Ht. apply Ht.
Qed.

Lemma calculateSpeedScore_range (ms : Q) :
  0 <= ms -> 0 <= calculateSpeedScore ms <= 100.
Proof.
  intro H. split; [|apply calculateSpeedScore_max; exact H].
  unfold calculateSpeedScore.
  repeat split_geb; split_minmax; qlra_all.
Qed.

Lemma calculateUptimeScore_in_range (p : Q) :
  0 <= p <= 100 -> 0 <= calculateUptimeScore p <= 100.
Proof.
  intros [H0 H100]. unfold calculateUptimeScore.
  repeat split_geb; split; qlra_all.
Qed.

Lemma calculateUptime_in_range (tests : list EndpointTest) :
  0 <= calculateUptime tests <= 100.
Proof.
  destruct tests as [|t0 rest]; [split; cbn; lra|].
  unfold calculateUptime. apply percent_range.
  - apply length_nonneg.
  - apply length_filter_le.
  - apply length_pos.
Qed.

Lemma calculateAccuracyScore_in_range (tests : list EndpointTest) :
  0 <= calculateAccuracyScore tests <= 100.
Proof.
  destruct tests as [|t0 rest]; [split; cbn; lra|].
  unfold calculateAccuracyScore. cbv zeta.
  pose proof (percent_range
                (JS.length
                   (filter (fun t => is_successful t
                                     && JS.truthy_str (response_sample t))
                           (t0 :: rest)))
                (JS.length (t0 :: rest))
                (length_nonneg _) (length_filter_le _ _) (length_pos t0 rest))
    as Hp.
  unfold Qdiv in Hp |- *.
  match type of Hp with 0 <= ?p <= 100 => generalize dependent p end.
  intros p [Hp0 Hp1] .
  repeat split_geb; split; qlra_all.
Qed.

Lemma calculateAgeScore_in_range (now first : Z) :
  (first <= now)%Z -> 0 <= calculateAgeScore now first <= 100.
Proof.
  intro H. split; [apply calculateAgeScore_nonneg; exact H|].
  unfold calculateAgeScore. cbv zeta.
  generalize (inject_Z (now - first)). intro s.
  repeat split_geb; split_minmax; qlra_all.
Qed.

Lemma last_in {A : Type} (a : A) (l : list A) : In (last (a :: l) a) (a :: l).
Proof.
  revert a. induction l as [|b l IH]; intro a; [left; reflexivity|].
  change (last (a :: b :: l) a) with (last (b :: l) a).
  right. destruct l as [|c l]; [left; reflexivity|].
  change (last (b :: c :: l) a) with (last (c :: l) a).
  specialize (IH b).
  change (last (b :: c :: l) b) with (last (c :: l) b) in IH.
  assert (E : forall d d', last (c :: l) d = last (c :: l) d').
  { clear. revert c. induction l as [|x l IHl]; intros c d d'; [reflexivity|].
    change (last (c :: x :: l) d) with (last (x :: l) d).
    change (last (c :: x :: l) d') with (last (x :: l) d').
    apply IHl. }
  rewrite (E a b). exact IH.
Qed.

(** X11.  For a window whose latencies are not negative and whose tests are
    not in the future, every score of the snapshot (uptime, speed,
    accuracy, age and overall) lies between 0 and 100. *)
Theorem trust_score_in_range
    (now endpoint : Z) (tests : list EndpointTest) :
  (forall t, In t tests -> latency_nonneg t) ->
  (forall t, In t tests -> (test_timestamp t <= now)%Z) ->
  let score := calculateTrustScoreForEndpoint now endpoint tests in
  0 <= uptime_score score <= 100 /\
  0 <= speed_score score <= 100 /\
  0 <= accuracy_score score <= 100 /\
  0 <= age_score score <= 100 /\
  0 <= overall_score score <= 100.
Proof.
  intros Hlat Htime score. subst score.
  destruct tests as [|t0 rest]; [cbn; repeat split; lra|].
  cbn [calculateTrustScoreForEndpoint uptime_score speed_score accuracy_score
       age_score overall_score].
  pose proof (calculateUptimeScore_in_range _
                (calculateUptime_in_range (t0 :: rest))) as Hu.
  pose proof (calculateSpeedScore_range _
                (calculateAvgResponseTime_nonneg (t0 :: rest) Hlat)) as Hs.
  pose proof (calculateAccuracyScore_in_range (t0 :: rest)) as Ha.
  pose proof (calculateAgeScore_in_range now _
                (Htime _ (last_in t0 rest))) as Hg.
  split; [apply round1_range; exact Hu|].
  split; [apply round1_range; exact Hs|].
  split; [apply round1_range; exact Ha|].
  split; [apply round1_range; exact Hg|].
  unfold calculateOverallScore. cbv zeta. apply round1_range.
  split; lra.
Qed.

Lemma trust_score_in_range_witness :
  0 <= overall_score
         (calculateTrustScoreForEndpoint (40 * Sample.day) 1
            [Sample.unsampled_success; Sample.failed_test]) <= 100.
Proof.
  apply (trust_score_in_range (40 * Sample.day) 1
           [Sample.unsampled_success; Sample.failed_test]).
  - intros t [<- | [<- | []]] q Hq; injection Hq as <-;
      vm_compute; discriminate.
  - intros t [<- | [<- | []]]; vm_compute; discriminate.
Defined.

(** X12.  The counters of a snapshot add up: [total_tests] is the size of
    the window, successful and failed tests sum to it, and neither count is
    negative. *)
Theorem trust_score_counters
    (now endpoint : Z) (tests : list EndpointTest) :
  let score := calculateTrustScoreForEndpoint now endpoint tests in
  total_tests score == JS.length tests /\
  successful_tests score + failed_tests score == total_tests score /\
  successful_tests score == JS.length (filter is_successful tests) /\
  0 <= successful_tests score <= total_tests score /\
  0 <= failed_tests score.
Proof.
  intro score. subst score. destruct tests as [|t0 rest].
  - cbn. repeat split; lra.
  - cbn [calculateTrustScoreForEndpoint total_tests successful_tests
         failed_tests].
    pose proof (length_nonneg (filter is_successful (t0 :: rest))) as H0.
    pose proof (length_filter_le is_successful (t0 :: rest)) as H1.
    generalize dependent (JS.length (filter is_successful (t0 :: rest))).
    generalize (JS.length (t0 :: rest)).
    intros n k H0 H1. repeat split; lra.
Qed.

(** ** Windows without a usable latency sample *)

Lemma calculateUptime_all_successful (tests : list EndpointTest) :
  tests <> [] -> (forall t, In t tests -> is_successful t = true) ->
  calculateUptime tests == 100.
Proof.
  intros Hne Hall. destruct tests as [|t0 rest]; [congruence|].
  unfold calculateUptime.
  assert (Hf : filter is_successful (t0 :: rest) = t0 :: rest).
  { apply forallb_filter_id. apply forallb_forall. exact Hall. }
  rewrite Hf. pose proof (length_pos t0 rest) as Hpos.
  generalize dependent (JS.length (t0 :: rest)). intros n Hn.
  field. intro Hz. rewrite Hz in Hn. apply (Qlt_irrefl 0). exact Hn.
Qed.

Lemma calculateUptimeScore_100 (p : Q) :
  p == 100 -> calculateUptimeScore p == 100.
Proof.
  intro H. unfold calculateUptimeScore.
  repeat split_geb; try (exfalso; lra). lra.
Qed.

Lemma overall_at_least_speed_share (u s a g : Q) :
  0 <= u -> s == 100 -> 0 <= a -> 0 <= g ->
  25 <= calculateOverallScore u s a g.
Proof.
  intros Hu Hs Ha Hg. unfold calculateOverallScore.
  assert (H25 : JS.round1 25 == 25) by (vm_compute; reflexivity).
  apply Qle_trans with (JS.round1 25).
  - rewrite H25. apply Qle_refl.
  - apply round1_mono. lra.
Qed.

Lemma overall_of_speed_share_alone (u s a g : Q) :
  u == 0 -> s == 100 -> a == 0 -> 0 <= g <= 100 ->
  25 <= calculateOverallScore u s a g <= 35.
Proof.
  intros Hu Hs Ha [Hg0 Hg1]. unfold calculateOverallScore.
  assert (H25 : JS.round1 25 == 25) by (vm_compute; reflexivity).
  assert (H35 : JS.round1 35 == 35) by (vm_compute; reflexivity).
  split.
  - apply Qle_trans with (JS.round1 25).
    + rewrite H25. apply Qle_refl.
    + apply round1_mono. lra.
  - apply Qle_trans with (JS.round1 35).
    + apply round1_mono. lra.
    + rewrite H35. apply Qle_refl.
Qed.

(** C10, as the code has it.  In a non-empty window [t0 :: rest] where no
    test is both successful and carries a non-zero latency, the mean
    response time is 0 and the speed score is 100, the most a non-negative
    latency can score; the overall score is computed from that speed score
    and so holds the full speed share, [0.25 * 100 = 25] points, and is at
    least 25 once the oldest record is not in the future.  The uptime score
    is that of the share of successful tests, whatever their latencies:
    it is 0 when every test of the window failed, where the overall score
    lies between 25 and 35, and it is 100 when every test succeeded. *)
Theorem speed_share_without_latency_sample
    (now endpoint : Z) (t0 : EndpointTest) (rest : list EndpointTest) :
  let tests := t0 :: rest in
  let score := calculateTrustScoreForEndpoint now endpoint tests in
  (forall t, In t tests ->
             is_successful t && JS.truthy_num (response_time_ms t) = false) ->
  calculateAvgResponseTime tests = 0 /\
  calculateSpeedScore (calculateAvgResponseTime tests) == 100 /\
  (forall ms, 0 <= ms -> calculateSpeedScore ms <= 100) /\
  speed_score score == 100 /\
  calculateSpeedScore (calculateAvgResponseTime tests) * 0.25 == 25 /\
  overall_score score
  = calculateOverallScore
      (calculateUptimeScore (calculateUptime tests))
      (calculateSpeedScore 0)
      (calculateAccuracyScore tests)
      (calculateAgeScore now (test_timestamp (last tests t0))) /\
  ((test_timestamp (last tests t0) <= now)%Z -> 25 <= overall_score score) /\
  ((forall t, In t tests -> is_successful t = false) ->
   calculateUptimeScore (calculateUptime tests) == 0 /\
   uptime_score score == 0 /\
   ((test_timestamp (last tests t0) <= now)%Z ->
    25 <= overall_score score <= 35)) /\
  ((forall t, In t tests -> is_successful t = true) ->
   calculateUptimeScore (calculateUptime tests) == 100 /\
   uptime_score score == 100).
Proof.
  intros tests score H.
  pose proof (calculateAvgResponseTime_no_sample tests H) as Havg.
  assert (Hspeed : calculateSpeedScore (calculateAvgResponseTime tests) == 100).
  { rewrite Havg. apply calculateSpeedScore_0. }
  assert (Hover : overall_score score
                  = calculateOverallScore
                      (calculateUptimeScore (calculateUptime tests))
                      (calculateSpeedScore 0)
                      (calculateAccuracyScore tests)
                      (calculateAgeScore now
                         (test_timestamp (last tests t0)))).
  { subst score tests.
    cbn [calculateTrustScoreForEndpoint overall_score].
    rewrite Havg. reflexivity. }
  split; [exact Havg|]. split; [exact Hspeed|].
  split; [exact calculateSpeedScore_max|].
  split; [|split; [|split; [exact Hover|split; [|split]]]].
  - subst score tests. cbn [calculateTrustScoreForEndpoint speed_score].
    rewrite (round1_comp _ 100 Hspeed). vm_compute. reflexivity.
  - rewrite Hspeed. reflexivity.
  - intro Hold. rewrite Hover.
    apply overall_at_least_speed_share.
    + apply calculateUptimeScore_in_range. apply calculateUptime_in_range.
    + apply calculateSpeedScore_0.
    + apply calculateAccuracyScore_in_range.
    + apply calculateAgeScore_nonneg. exact Hold.
  - intro Hfail.
    pose proof (calculateUptimeScore_0 _ (calculateUptime_all_failed tests Hfail))
      as Hup.
    pose proof (calculateAccuracyScore_all_failed tests Hfail) as Hacc.
    split; [exact Hup|]. split.
    + subst score tests. cbn [calculateTrustScoreForEndpoint uptime_score].
      rewrite (round1_comp _ 0 Hup). vm_compute. reflexivity.
    + intro Hold. rewrite Hover.
      apply overall_of_speed_share_alone.
      * exact Hup.
      * apply calculateSpeedScore_0.
      * exact Hacc.
      * apply calculateAgeScore_in_range. exact Hold.
  - intro Hok.
    assert (Hup : calculateUptimeScore (calculateUptime tests) == 100).
    { apply calculateUptimeScore_100.
      apply calculateUptime_all_successful; [|exact Hok].
      subst tests. discriminate. }
    split; [exact Hup|].
    subst score tests. cbn [calculateTrustScoreForEndpoint uptime_score].
    rewrite (round1_comp _ 100 Hup). vm_compute. reflexivity.
Qed.

Lemma speed_share_without_latency_sample_witness :
  let score :=
    calculateTrustScoreForEndpoint (40 * Sample.day) 1 Sample.all_failed_window
  in
  calculateAvgResponseTime Sample.all_failed_window = 0 /\
  speed_score score == 100 /\
  uptime_score score == 0 /\
  25 <= overall_score score <= 35.
Proof.
  assert (Hfail : forall t, In t Sample.all_failed_window ->
                            is_successful t = false).
  { intros t [<- | Ht]; [reflexivity|].
    apply repeat_spec in Ht. subst t. reflexivity. }
  destruct (speed_share_without_latency_sample
              (40 * Sample.day) 1 Sample.failed_test
              (repeat Sample.failed_test 99))
    as (Havg & _ & _ & Hspeed & _ & _ & _ & Hall & _).
  - intros t Ht. rewrite (Hfail t Ht). reflexivity.
  - destruct (Hall Hfail) as (_ & Hup & Hbounds).
    split; [exact Havg|]. split; [exact Hspeed|]. split; [exact Hup|].
    apply Hbounds. vm_compute. discriminate.
Defined.

(** C10, as the claim states it, fails: a window whose one test succeeded
    without a measured latency has no usable latency sample, so its speed
    score is 100, and yet its uptime score is 100, not 0. *)
Lemma uptime_score_without_latency_sample :
  let tests := [Sample.unmeasured_success] in
  let score := calculateTrustScoreForEndpoint (40 * Sample.day) 1 tests in
  (forall t, In t tests ->
             is_successful t && JS.truthy_num (response_time_ms t) = false) /\
  calculateAvgResponseTime tests = 0 /\
  speed_score score == 100 /\
  uptime_score score == 100 /\
  ~ uptime_score score == 0.
Proof.
  cbv zeta. split; [intros t [<- | []]; reflexivity|].
  split; [reflexivity|].
  split; [vm_compute; reflexivity|].
  split; [vm_compute; reflexivity|].
  intro H. vm_compute in H. discriminate H.
Qed.

(** ** Grades and recommendations along the score *)

(** X13.  A higher score never gets a worse grade or a worse
    recommendation. *)
Theorem grade_and_recommendation_monotone (s1 s2 : Q) :
  s1 <= s2 ->
  (grade_rank (calculateGrade s1) <= grade_rank (calculateGrade s2))%nat /\
  (recommendation_rank (calculateRecommendation s1)
   <= recommendation_rank (calculateRecommendation s2))%nat.
Proof.
  intro H. split.
  - unfold calculateGrade.
    repeat split_geb; first [exfalso; lra | vm_compute; lia].
  - unfold calculateRecommendation.
    repeat split_geb; first [exfalso; lra | vm_compute; lia].
Qed.

Lemma grade_and_recommendation_monotone_witness :
  (grade_rank (calculateGrade 79) <= grade_rank (calculateGrade 91))%nat.
Proof.
  apply (grade_and_recommendation_monotone 79 91). vm_compute. discriminate.
Defined.

(** X14.  Grade and recommendation of one score agree: a TRUSTED score has
    grade B or better, an AVOID score has grade D or F, every grade from B+
    up is TRUSTED and grade F is always AVOID. *)
Theorem grade_agrees_with_recommendation (score : Q) :
  (calculateRecommendation score = TRUSTED ->
   (grade_rank "B" <= grade_rank (calculateGrade score))%nat) /\
  (calculateRecommendation score = AVOID ->
   (grade_rank (calculateGrade score) <= grade_rank "D")%nat) /\
  ((grade_rank "B+" <= grade_rank (calculateGrade score))%nat ->
   calculateRecommendation score = TRUSTED) /\
  (calculateGrade score = "F" -> calculateRecommendation score = AVOID).
Proof.
  unfold calculateRecommendation, calculateGrade.
  repeat split; intro H; revert H;
    repeat split_geb;
    first [ exfalso; lra
          | intro H; first [discriminate H | reflexivity
                            | vm_compute; lia
                            | vm_compute in H; lia] ].
Qed.

Lemma grade_agrees_with_recommendation_witness :
  calculateRecommendation 88 = TRUSTED /\
  (grade_rank "B" <= grade_rank (calculateGrade 88))%nat.
Proof.
  destruct (grade_agrees_with_recommendation 88) as (Htrusted & _ & Hup & _).
  assert (H : calculateRecommendation 88 = TRUSTED).
  { apply Hup. vm_compute. lia. }
  split; [exact H | exact (Htrusted H)].
Defined.

(** * Further properties of the discrepancy and prediction handlers *)

Lemma find_evaluator_map
    (url : string) (g : EvaluatorRow -> EvaluatorRow)
    (rows : list EvaluatorRow) :
  (forall r, ev_evaluator_url (g r) = ev_evaluator_url r) ->
  find_evaluator url (map g rows) = option_map g (find_evaluator url rows).
Proof.
  intro Hg. unfold find_evaluator.
  induction rows as [|r rows IH]; [reflexivity|].
  cbn [map find]. rewrite Hg.
  destruct (String.eqb (ev_evaluator_url r) url); [reflexivity | exact IH].
Qed.

Lemma find_evaluator_some
    (url : string) (rows : list EvaluatorRow) (ev : EvaluatorRow) :
  find_evaluator url rows = Some ev ->
  In ev rows /\ ev_evaluator_url ev = url.
Proof.
  unfold find_evaluator. intro H. apply find_some in H.
  destruct H as [Hin Heq]. split; [exact Hin|].
  apply String.eqb_eq. exact Heq.
Qed.

Lemma unique_by_id (rows : list EvaluatorRow) (a b : EvaluatorRow) :
  NoDup (map ev_id rows) -> In a rows -> In b rows ->
  ev_id a = ev_id b -> a = b.
Proof.
  induction rows as [|r rows IH]; intros Hnd Ha Hb Hid; [contradiction|].
  cbn [map] in Hnd. inversion Hnd as [|x xs Hnotin Hnd']; subst.
  destruct Ha as [-> | Ha]; destruct Hb as [-> | Hb].
  - reflexivity.
  - exfalso. apply Hnotin. rewrite Hid. apply in_map. exact Hb.
  - exfalso. apply Hnotin. rewrite <- Hid. apply in_map. exact Ha.
  - apply IH; assumption.
Qed.



(** X16.  The update of the running averages touches one profile and
    nothing else.  With unique evaluator ids, it leaves the row of every
    other evaluator as it was; it keeps the id, the url and the reputation
    score of every row, so the table keeps its length and order; and the
    evaluations, predictions, discrepancies and reputation history are as
    before. *)
Theorem update_touches_one_profile
    (url other : string) (body : PredictionDiscrepancyRequest) (db : DB) :
  NoDup (map ev_id (evaluators db)) ->
  other <> url ->
  let db' := exec (update_prediction_accuracy url body) db in
  find_evaluator other (evaluators db') = find_evaluator other (evaluators db)
  /\ map (fun r => (ev_id r, ev_evaluator_url r, trust_score r))
         (evaluators db')
     = map (fun r => (ev_id r, ev_evaluator_url r, trust_score r))
           (evaluators db)
  /\ agent_evaluations db' = agent_evaluations db
  /\ evaluation_predictions db' = evaluation_predictions db
  /\ prediction_discrepancies db' = prediction_discrepancies db
  /\ evaluator_reputation_history db' = evaluator_reputation_history db.
Proof.
  intros Hnd Hother db'. subst db'.
  split; [|split; [apply update_keeps_trust|apply update_keeps_other_tables]].
  destruct (find_evaluator url (evaluators db)) as [ev|] eqn:Efind.
  2: { rewrite (update_unregistered url body db Efind). reflexivity. }
  rewrite (update_evaluators url body db ev Efind), find_evaluator_map.
  2: { intro r. destruct (Z.eqb (ev_id r) (ev_id ev)); reflexivity. }
  destruct (find_evaluator other (evaluators db)) as [evo|] eqn:Eother;
    [|reflexivity].
  cbn [option_map]. f_equal.
  destruct (Z.eqb (ev_id evo) (ev_id ev)) eqn:Eid; [|reflexivity].
  exfalso. apply Z.eqb_eq in Eid.
  destruct (find_evaluator_some _ _ _ Efind) as [Hin Hu].
  destruct (find_evaluator_some _ _ _ Eother) as [Hino Huo].
  assert (evo = ev) by (apply (unique_by_id (evaluators db)); assumption).
  subst evo. apply Hother. congruence.
Qed.

Lemma update_touches_one_profile_witness :
  find_evaluator Sample.url
    (evaluators
       (exec (update_prediction_accuracy
                "https://other.example" (Sample.discrepancy 40 false poor))
             Sample.two_evaluators_db))
  = Some Sample.fresh_evaluator.
Proof.
  destruct (update_touches_one_profile
              "https://other.example" Sample.url
              (Sample.discrepancy 40 false poor) Sample.two_evaluators_db)
    as (Hother & _).
  - repeat constructor; simpl; intuition discriminate.
  - discriminate.
  - rewrite Hother. reflexivity.
Defined.



(** ** What a discrepancy report is answered with *)

(** X18.  Under the schema of [migrations/0004_evaluation_predictions.sql]
    no discrepancy report is stored.  A report that fails the presence
    test is answered with status 400; one that passes it is answered with
    status 500, because the INSERT binds neither [prediction_id] nor
    [evaluation_id], which are NOT NULL; no report is answered with status
    200; and in every case, and so after any stream of reports, the
    database is the one from before. *)
Theorem discrepancy_reports_are_not_stored
    (bodies : list PredictionDiscrepancyRequest)
    (body : PredictionDiscrepancyRequest) (db : DB) :
  status (fst (handleAgentDiscrepancy body db))
  = (if accepted_discrepancy body then 500 else 400)%Z /\
  stored_id (fst (handleAgentDiscrepancy body db)) = None /\
  (accepted_discrepancy body = true ->
   fst (handleAgentDiscrepancy body db)
   = Failed (NotNullFailed "prediction_discrepancies.prediction_id")) /\
  exec (handleAgentDiscrepancy body) db = db /\
  record_all bodies db = db.
Proof.
  split; [|split; [|split; [|split]]].
  - destruct (accepted_discrepancy body) eqn:H.
    + rewrite (discrepancy_accepted body db H). reflexivity.
    + destruct (discrepancy_rejected body db H) as [e He].
      rewrite He. reflexivity.
  - destruct (accepted_discrepancy body) eqn:H.
    + rewrite (discrepancy_accepted body db H). reflexivity.
    + destruct (discrepancy_rejected body db H) as [e He].
      rewrite He. reflexivity.
  - intro H. rewrite (discrepancy_accepted body db H). reflexivity.
  - apply discrepancy_keeps_database.
  - apply record_all_keeps_database.
Qed.

Lemma discrepancy_reports_are_not_stored_witness :
  fst (handleAgentDiscrepancy (Sample.discrepancy 2 true excellent)
                              Sample.registered_db)
  = Failed (NotNullFailed "prediction_discrepancies.prediction_id").
Proof.
  destruct (discrepancy_reports_are_not_stored
              [] (Sample.discrepancy 2 true excellent) Sample.registered_db)
    as (_ & _ & Hfailed & _).
  apply Hfailed. reflexivity.
Defined.

(** ** Row ids *)


(** ** Streams of predictions *)






(** * Saving tests and scores *)

Lemma filter_map_swap {A B : Type} (f : B -> bool) (g : A -> B) (l : list A) :
  filter f (map g l) = map g (filter (fun a => f (g a)) l).
Proof.
  induction l as [|a l IH]; [reflexivity|]. cbn [map filter].
  destruct (f (g a)); cbn [map]; rewrite IH; reflexivity.
Qed.

Lemma length_map_Q {A B : Type} (g : A -> B) (l : list A) :
  JS.length (map g l) = JS.length l.
Proof. unfold JS.length. rewrite length_map. reflexivity. Qed.

Lemma truthy_num_or_null (x : option Q) :
  JS.truthy_num (num_or_null x) = JS.truthy_num x.
Proof.
  unfold num_or_null. destruct (JS.truthy_num x) eqn:E; [exact E|reflexivity].
Qed.

Lemma or_zero_or_null (x : option Q) :
  JS.or_zero (num_or_null x) = JS.or_zero x.
Proof.
  unfold num_or_null. destruct x as [q|]; [|reflexivity].
  cbn [JS.truthy_num JS.or_zero].
  destruct (Qeq_bool q 0) eqn:E; cbn [negb JS.or_zero]; [reflexivity|].
  rewrite E. reflexivity.
Qed.

Lemma truthy_str_or_null (x : option string) :
  JS.truthy_str (str_or_null x) = JS.truthy_str x.
Proof.
  unfold str_or_null. destruct (JS.truthy_str x) eqn:E; [exact E|reflexivity].
Qed.

Lemma sum_stored (l : list EndpointTest) (acc : Q) :
  fold_left (fun sum t => sum + JS.or_zero (response_time_ms t))
            (map stored_test l) acc
  = fold_left (fun sum t => sum + JS.or_zero (response_time_ms t)) l acc.
Proof.
  revert acc. induction l as [|t l IH]; intro acc; [reflexivity|].
  cbn [map fold_left]. rewrite IH.
  cbn [stored_test response_time_ms]. rewrite or_zero_or_null. reflexivity.
Qed.

Lemma last_stored (l : list EndpointTest) (d : EndpointTest) :
  test_timestamp (last (map stored_test l) (stored_test d))
  = test_timestamp (last l d).
Proof.
  induction l as [|t l IH]; [reflexivity|].
  destruct l as [|t' l]; [reflexivity|].
  change (last (map stored_test (t :: t' :: l)) (stored_test d))
    with (last (map stored_test (t' :: l)) (stored_test d)).
  change (last (t :: t' :: l) d) with (last (t' :: l) d).
  exact IH.
Qed.

Lemma calculateUptime_stored (l : list EndpointTest) :
  calculateUptime (map stored_test l) = calculateUptime l.
Proof.
  destruct l as [|t0 rest]; [reflexivity|].
  unfold calculateUptime.
  change (map stored_test (t0 :: rest))
    with (stored_test t0 :: map stored_test rest).
  change (stored_test t0 :: map stored_test rest)
    with (map stored_test (t0 :: rest)).
  rewrite filter_map_swap, !length_map_Q. reflexivity.
Qed.

Lemma calculateAvgResponseTime_stored (l : list EndpointTest) :
  calculateAvgResponseTime (map stored_test l) = calculateAvgResponseTime l.
Proof.
  unfold calculateAvgResponseTime. rewrite filter_map_swap.
  rewrite (filter_ext
             (fun a => is_successful (stored_test a)
                       && JS.truthy_num (response_time_ms (stored_test a)))
             (fun t => is_successful t
                       && JS.truthy_num (response_time_ms t))).
  2: { intro a. cbn [stored_test is_successful response_time_ms].
       rewrite truthy_num_or_null. reflexivity. }
  destruct (filter _ l) as [|t0 rest]; [reflexivity|].
  change (map stored_test (t0 :: rest))
    with (stored_test t0 :: map stored_test rest).
  change (stored_test t0 :: map stored_test rest)
    with (map stored_test (t0 :: rest)).
  rewrite sum_stored, length_map_Q. reflexivity.
Qed.

Lemma calculateAccuracyScore_stored (l : list EndpointTest) :
  calculateAccuracyScore (map stored_test l) = calculateAccuracyScore l.
Proof.
  destruct l as [|t0 rest]; [reflexivity|].
  unfold calculateAccuracyScore.
  change (map stored_test (t0 :: rest))
    with (stored_test t0 :: map stored_test rest).
  change (stored_test t0 :: map stored_test rest)
    with (map stored_test (t0 :: rest)).
  rewrite filter_map_swap.
  rewrite (filter_ext
             (fun a => is_successful (stored_test a)
                       && JS.truthy_str (response_sample (stored_test a)))
             (fun t => is_successful t
                       && JS.truthy_str (response_sample t))).
  2: { intro a. cbn [stored_test is_successful response_sample].
       rewrite truthy_str_or_null. reflexivity. }
  rewrite !length_map_Q. reflexivity.
Qed.

Lemma references_endpoint_saved
    (id : Z) (test : EndpointTest) (reg : Registry) :
  references_endpoint id (endpoints (saveTestResult test reg))
  = references_endpoint id (endpoints reg).
Proof.
  unfold saveTestResult.
  destruct (references_endpoint (endpoint_id test) (endpoints reg));
    [|reflexivity].
  cbn [endpoints]. unfold references_endpoint.
  induction (endpoints reg) as [|e rows IH]; [reflexivity|].
  cbn [map existsb]. rewrite IH. f_equal.
  destruct (Z.eqb (e_id e) (endpoint_id test)); reflexivity.
Qed.

(** X20.  Saving tests loses nothing the trust score reads.  The rows
    [saveTestResult] appends are the tests of endpoints on record, with
    their falsy optional values (a status code or latency of 0, an empty
    text) replaced by NULL, in the order saved; a test of an endpoint that
    is not on record fails the foreign key and is dropped.  The trust score
    cache is not touched, and the trust score computed from saved rows is,
    field by field, the one computed from the tests themselves. *)
Theorem saved_tests_score_alike
    (now endpoint : Z) (tests : list EndpointTest) (reg : Registry) :
  endpoint_tests (fold_left (fun r t => saveTestResult t r) tests reg)
  = (endpoint_tests reg
     ++ map stored_test
            (filter (fun t => references_endpoint (endpoint_id t)
                                                  (endpoints reg))
                    tests))%list /\
  trust_scores (fold_left (fun r t => saveTestResult t r) tests reg)
  = trust_scores reg /\
  calculateTrustScoreForEndpoint now endpoint (map stored_test tests)
  = calculateTrustScoreForEndpoint now endpoint tests.
Proof.
  split; [|split].
  - revert reg. induction tests as [|t tests IH]; intro reg.
    + cbn. rewrite app_nil_r. reflexivity.
    + cbn [fold_left filter]. rewrite IH.
      rewrite (filter_ext
                 (fun t0 => references_endpoint
                              (endpoint_id t0)
                              (endpoints (saveTestResult t reg)))
                 (fun t0 => references_endpoint (endpoint_id t0)
                                                (endpoints reg))).
      2: { intro a. apply references_endpoint_saved. }
      unfold saveTestResult.
      destruct (references_endpoint (endpoint_id t) (endpoints reg)).
      * cbn [endpoint_tests map]. rewrite <- app_assoc. reflexivity.
      * reflexivity.
  - revert reg. induction tests as [|t tests IH]; intro reg; [reflexivity|].
    cbn [fold_left]. rewrite IH. unfold saveTestResult.
    destruct (references_endpoint (endpoint_id t) (endpoints reg));
      reflexivity.
  - destruct tests as [|t0 rest]; [reflexivity|].
    pose proof (calculateUptime_stored (t0 :: rest)) as Hu.
    pose proof (calculateAvgResponseTime_stored (t0 :: rest)) as Ha.
    pose proof (calculateAccuracyScore_stored (t0 :: rest)) as Hc.
    pose proof (last_stored (t0 :: rest) t0) as Hl.
    pose proof (filter_map_swap is_successful stored_test (t0 :: rest)) as Hf.
    pose proof (length_map_Q stored_test (t0 :: rest)) as Hn.
    cbn [map] in Hu, Ha, Hc, Hl, Hf, Hn.
    cbn [map]. unfold calculateTrustScoreForEndpoint.
    rewrite Hu, Ha, Hc, Hl, Hf, Hn.
    change (filter (fun a => is_successful (stored_test a)) (t0 :: rest))
      with (filter is_successful (t0 :: rest)).
    rewrite length_map_Q. reflexivity.
Qed.

(** ** The trust score cache *)

Lemma find_trust_score_none (id : Z) (rows : list TrustScore) :
  find_trust_score id rows = None ->
  forall r, In r rows -> Z.eqb (ts_endpoint_id r) id = false.
Proof.
  unfold find_trust_score. intros H r Hr.
  exact (find_none _ _ H r Hr).
Qed.

Lemma find_trust_score_app (id : Z) (l1 l2 : list TrustScore) :
  find_trust_score id (l1 ++ l2)
  = match find_trust_score id l1 with
    | Some r => Some r
    | None => find_trust_score id l2
    end.
Proof.
  unfold find_trust_score. induction l1 as [|r l1 IH]; [reflexivity|].
  cbn [app find]. destruct (Z.eqb (ts_endpoint_id r) id); [reflexivity|].
  exact IH.
Qed.

Lemma find_trust_score_app_none (id : Z) (rows : list TrustScore)
    (row : TrustScore) :
  find_trust_score id rows = None ->
  find_trust_score id (rows ++ [row])
  = if Z.eqb (ts_endpoint_id row) id then Some row else None.
Proof.
  unfold find_trust_score. induction rows as [|r rows IH]; intro H.
  - reflexivity.
  - cbn [app find] in *.
    destruct (Z.eqb (ts_endpoint_id r) id); [discriminate|]. apply IH. exact H.
Qed.

Lemma find_trust_score_replace (id : Z) (rows : list TrustScore)
    (new : TrustScore) (old : TrustScore) :
  ts_endpoint_id new = id ->
  find_trust_score id rows = Some old ->
  find_trust_score id
    (map (fun r => if Z.eqb (ts_endpoint_id r) id then new else r) rows)
  = Some new.
Proof.
  unfold find_trust_score. intros Hnew.
  induction rows as [|r rows IH]; intro H; [discriminate|].
  cbn [map find] in *.
  destruct (Z.eqb (ts_endpoint_id r) id) eqn:E.
  - rewrite Hnew, Z.eqb_refl. reflexivity.
  - rewrite E. apply IH. exact H.
Qed.

Lemma find_trust_score_replace_other (id other : Z) (rows : list TrustScore)
    (new : TrustScore) :
  ts_endpoint_id new = id -> other <> id ->
  find_trust_score other
    (map (fun r => if Z.eqb (ts_endpoint_id r) id then new else r) rows)
  = find_trust_score other rows.
Proof.
  unfold find_trust_score. intros Hnew Hother.
  induction rows as [|r rows IH]; [reflexivity|].
  cbn [map find].
  destruct (Z.eqb (ts_endpoint_id r) id) eqn:E.
  - apply Z.eqb_eq in E. rewrite Hnew, E.
    assert (E' : Z.eqb id other = false) by (apply Z.eqb_neq; congruence).
    rewrite E'. exact IH.
  - rewrite IH. reflexivity.
Qed.

Lemma saveTrustScore_lookup_after (trustScore : TrustScore) (reg : Registry) :
  references_endpoint (ts_endpoint_id trustScore) (endpoints reg) = true ->
  find_trust_score (ts_endpoint_id trustScore)
                   (trust_scores (saveTrustScore trustScore reg))
  = Some (stored_score trustScore).
Proof.
  intro Hfk. unfold saveTrustScore.
  destruct (find_trust_score (ts_endpoint_id trustScore) (trust_scores reg))
    as [old|] eqn:E; [|rewrite Hfk]; cbn [trust_scores].
  - apply (find_trust_score_replace _ _ _ old); [reflexivity | exact E].
  - rewrite (find_trust_score_app_none _ _ _ E).
    cbn [stored_score ts_endpoint_id]. rewrite Z.eqb_refl. reflexivity.
Qed.

Lemma saveTrustScore_keeps_endpoints (trustScore : TrustScore) (reg : Registry) :
  endpoints (saveTrustScore trustScore reg) = endpoints reg /\
  endpoint_tests (saveTrustScore trustScore reg) = endpoint_tests reg.
Proof.
  unfold saveTrustScore.
  destruct (find_trust_score _ _); [split; reflexivity|].
  destruct (references_endpoint _ _); split; reflexivity.
Qed.

Lemma NoDup_app_iff_snoc {A : Type} (l : list A) (a : A) :
  NoDup l -> ~ In a l -> NoDup (l ++ [a]).
Proof.
  intros Hnd Hnotin. induction Hnd as [|x l Hx Hnd IH]; cbn [app].
  - constructor; [intros []|constructor].
  - constructor.
    + intro Hin. apply in_app_or in Hin. destruct Hin as [Hin | [-> | []]].
      * contradiction.
      * apply Hnotin. left. reflexivity.
    + apply IH. intro Hin. apply Hnotin. right. exact Hin.
Qed.

(** X21.  Saving a trust score and looking it up is a round trip: after
    [saveTrustScore] for an endpoint on record the row found for the
    endpoint holds the saved values (with a first-tested timestamp of 0
    stored as NULL), whether a row existed or not.  For an endpoint that
    is not on record and has no row, the INSERT fails the foreign key and
    nothing is changed.  In every case the row found for any other
    endpoint, and the other tables, are as before. *)
Theorem saveTrustScore_lookup (trustScore : TrustScore) (reg : Registry) :
  (references_endpoint (ts_endpoint_id trustScore) (endpoints reg) = true ->
   find_trust_score (ts_endpoint_id trustScore)
                    (trust_scores (saveTrustScore trustScore reg))
   = Some (stored_score trustScore)) /\
  (references_endpoint (ts_endpoint_id trustScore) (endpoints reg) = false ->
   find_trust_score (ts_endpoint_id trustScore) (trust_scores reg) = None ->
   saveTrustScore trustScore reg = reg) /\
  (forall other,
     other <> ts_endpoint_id trustScore ->
     find_trust_score other (trust_scores (saveTrustScore trustScore reg))
     = find_trust_score other (trust_scores reg)) /\
  endpoints (saveTrustScore trustScore reg) = endpoints reg /\
  endpoint_tests (saveTrustScore trustScore reg) = endpoint_tests reg.
Proof.
  split; [apply saveTrustScore_lookup_after|].
  split; [|split; [|apply saveTrustScore_keeps_endpoints]].
  - intros Hfk Hnone. unfold saveTrustScore. rewrite Hnone, Hfk. reflexivity.
  - intros other Hother. unfold saveTrustScore.
    destruct (find_trust_score (ts_endpoint_id trustScore) (trust_scores reg))
      as [old|] eqn:E; cbn [trust_scores].
    + apply find_trust_score_replace_other; [reflexivity | exact Hother].
    + destruct (references_endpoint _ _); [|reflexivity].
      cbn [trust_scores]. rewrite find_trust_score_app.
      destruct (find_trust_score other (trust_scores reg)); [reflexivity|].
      unfold find_trust_score. cbn [find stored_score ts_endpoint_id].
      assert (E' : Z.eqb (ts_endpoint_id trustScore) other = false)
        by (apply Z.eqb_neq; congruence).
      rewrite E'. reflexivity.
Qed.

Lemma saveTrustScore_lookup_witness :
  find_trust_score 1
    (trust_scores
       (saveTrustScore
          (calculateTrustScoreForEndpoint (40 * Sample.day) 1
                                          [Sample.unsampled_success])
          Fixture.half_scored))
  = Some (stored_score
            (calculateTrustScoreForEndpoint (40 * Sample.day) 1
                                            [Sample.unsampled_success])) /\
  saveTrustScore
    (calculateTrustScoreForEndpoint (40 * Sample.day) 3
                                    [Sample.unsampled_success])
    Fixture.half_scored
  = Fixture.half_scored.
Proof.
  split.
  - destruct (saveTrustScore_lookup
                (calculateTrustScoreForEndpoint (40 * Sample.day) 1
                                                [Sample.unsampled_success])
                Fixture.half_scored) as (Hfound & _).
    apply Hfound. reflexivity.
  - destruct (saveTrustScore_lookup
                (calculateTrustScoreForEndpoint (40 * Sample.day) 3
                                                [Sample.unsampled_success])
                Fixture.half_scored) as (_ & Hdropped & _).
    apply Hdropped; reflexivity.
Defined.

Lemma stored_score_idempotent (trustScore : TrustScore) :
  stored_score (stored_score trustScore) = stored_score trustScore.
Proof.
  unfold stored_score. cbn. f_equal.
  destruct (first_tested_at trustScore) as [z|]; [|reflexivity].
  cbn [int_or_null]. destruct (Z.eqb z 0) eqn:E; [reflexivity|].
  cbn [int_or_null]. rewrite E. reflexivity.
Qed.

Lemma replace_keeps_ids (id : Z) (new : TrustScore) (rows : list TrustScore) :
  ts_endpoint_id new = id ->
  map ts_endpoint_id
      (map (fun r => if Z.eqb (ts_endpoint_id r) id then new else r) rows)
  = map ts_endpoint_id rows.
Proof.
  intro Hnew. rewrite map_map. apply map_ext. intro r.
  destruct (Z.eqb (ts_endpoint_id r) id) eqn:E; [|reflexivity].
  apply Z.eqb_eq in E. congruence.
Qed.

Lemma replace_absent (id : Z) (new : TrustScore) (rows : list TrustScore) :
  (forall r, In r rows -> Z.eqb (ts_endpoint_id r) id = false) ->
  map (fun r => if Z.eqb (ts_endpoint_id r) id then new else r) rows = rows.
Proof.
  intro H. induction rows as [|r rows IH]; [reflexivity|].
  cbn [map]. rewrite (H r (or_introl eq_refl)), IH; [reflexivity|].
  intros r' Hr'. apply H. right. exact Hr'.
Qed.

(** X22.  The trust score cache holds one row per endpoint: if no two rows
    share an endpoint before [saveTrustScore], none do after; the table
    grows by one row when the endpoint is on record and had no row, and
    keeps its size otherwise; and saving the same score a second time
    changes nothing. *)
Theorem saveTrustScore_one_row_per_endpoint
    (trustScore : TrustScore) (reg : Registry) :
  (NoDup (map ts_endpoint_id (trust_scores reg)) ->
   NoDup (map ts_endpoint_id (trust_scores (saveTrustScore trustScore reg)))) /\
  List.length (trust_scores (saveTrustScore trustScore reg))
  = (match find_trust_score (ts_endpoint_id trustScore) (trust_scores reg) with
     | Some _ => List.length (trust_scores reg)
     | None =>
         if references_endpoint (ts_endpoint_id trustScore) (endpoints reg)
         then S (List.length (trust_scores reg))
         else List.length (trust_scores reg)
     end) /\
  saveTrustScore trustScore (saveTrustScore trustScore reg)
  = saveTrustScore trustScore reg.
Proof.
  split; [|split].
  - intro Hnd. unfold saveTrustScore.
    destruct (find_trust_score (ts_endpoint_id trustScore) (trust_scores reg))
      as [old|] eqn:E; cbn [trust_scores].
    + rewrite replace_keeps_ids; [exact Hnd | reflexivity].
    + destruct (references_endpoint _ _); [|exact Hnd].
      cbn [trust_scores].
      rewrite map_app. cbn [map stored_score ts_endpoint_id].
      apply NoDup_app_iff_snoc; [exact Hnd|].
      intro Hin. apply in_map_iff in Hin. destruct Hin as (r & Hr & Hin).
      pose proof (find_trust_score_none _ _ E r Hin) as Hne.
      apply Z.eqb_neq in Hne. contradiction.
  - unfold saveTrustScore.
    destruct (find_trust_score (ts_endpoint_id trustScore) (trust_scores reg));
      cbn [trust_scores].
    + apply length_map.
    + destruct (references_endpoint _ _); [|reflexivity].
      cbn [trust_scores]. rewrite length_app. cbn [List.length]. lia.
  - destruct (find_trust_score (ts_endpoint_id trustScore) (trust_scores reg))
      as [old|] eqn:E.
    + assert (Hfound :
        find_trust_score (ts_endpoint_id trustScore)
                         (trust_scores (saveTrustScore trustScore reg))
        = Some (stored_score trustScore)).
      { unfold saveTrustScore. rewrite E. cbn [trust_scores].
        apply (find_trust_score_replace _ _ _ old); [reflexivity | exact E]. }
      unfold saveTrustScore at 1. rewrite Hfound.
      unfold saveTrustScore. rewrite E.
      cbn [trust_scores endpoints endpoint_tests]. f_equal.
      rewrite map_map. apply map_ext. intro r.
      destruct (Z.eqb (ts_endpoint_id r) (ts_endpoint_id trustScore)) eqn:Er.
      * cbn [stored_score ts_endpoint_id]. rewrite Z.eqb_refl. reflexivity.
      * rewrite Er. reflexivity.
    + destruct (references_endpoint (ts_endpoint_id trustScore)
                                    (endpoints reg)) eqn:Hfk.
      * pose proof (saveTrustScore_lookup_after trustScore reg Hfk) as Hfound.
        unfold saveTrustScore at 1. rewrite Hfound.
        unfold saveTrustScore. rewrite E, Hfk.
        cbn [trust_scores endpoints endpoint_tests]. f_equal.
        rewrite map_app. cbn [map stored_score ts_endpoint_id].
        rewrite Z.eqb_refl.
        rewrite (replace_absent _ _ _ (find_trust_score_none _ _ E)).
        reflexivity.
      * assert (Hsame : saveTrustScore trustScore reg = reg).
        { unfold saveTrustScore. rewrite E, Hfk. reflexivity. }
        rewrite !Hsame. reflexivity.
Qed.

Lemma saveTrustScore_one_row_per_endpoint_witness :
  NoDup (map ts_endpoint_id
           (trust_scores
              (saveTrustScore
                 (calculateTrustScoreForEndpoint (40 * Sample.day) 1
                                                 [Sample.unsampled_success])
                 Fixture.half_scored))).
Proof.
  apply (saveTrustScore_one_row_per_endpoint
           (calculateTrustScoreForEndpoint (40 * Sample.day) 1
                                           [Sample.unsampled_success])).
  repeat constructor. intros [].
Defined.

(** * The public read handlers *)

Section PublicHandlers.

Variable parseFloat : string -> JSNumber.

(** X23.  What [saveTrustScore] stored is what [handleTrustScore] serves:
    for an internal request about a known endpoint, right after the
    endpoint's score was saved, the answer has status 200 and carries the
    saved overall score, sub-scores, grade, recommendation and counters. *)
Theorem saved_score_is_served
    (request : Headers) (env : Env) (reg : Registry)
    (url : string) (endpoint : Endpoint) (trustScore : TrustScore) :
  isInternalRequest request env = true ->
  JS.truthy_str (Some url) = true ->
  find_endpoint url (endpoints reg) = Some endpoint ->
  ts_endpoint_id trustScore = e_id endpoint ->
  exists answer,
    handleTrustScore parseFloat request (Some url) env
                     (saveTrustScore trustScore reg) = Ok answer /\
    tr_endpoint answer = url /\
    tr_overall answer = overall_score trustScore /\
    tr_uptime answer = uptime_score trustScore /\
    tr_speed answer = speed_score trustScore /\
    tr_accuracy answer = accuracy_score trustScore /\
    tr_age answer = age_score trustScore /\
    tr_grade answer = grade trustScore /\
    tr_recommendation answer = recommendation trustScore /\
    tr_total_tests answer = total_tests trustScore /\
    tr_successful_tests answer = successful_tests trustScore /\
    tr_avg_response_time_ms answer = avg_response_time_ms trustScore.
Proof.
  intros Hint Hurl Hfind Hid.
  destruct url as [|c u]; [discriminate Hurl|].
  unfold handleTrustScore, payment_gate. rewrite Hint. cbn [negb].
  assert (He : endpoints (saveTrustScore trustScore reg) = endpoints reg)
    by apply saveTrustScore_keeps_endpoints.
  assert (Hfk : references_endpoint (ts_endpoint_id trustScore)
                                    (endpoints reg) = true).
  { unfold references_endpoint. apply existsb_exists. exists endpoint.
    split.
    - unfold find_endpoint in Hfind. apply find_some in Hfind. apply Hfind.
    - apply Z.eqb_eq. symmetry. exact Hid. }
  rewrite He, Hfind, <- Hid, (saveTrustScore_lookup_after _ _ Hfk).
  eexists. split; [reflexivity|]. repeat split.
Qed.

(** X24.  The payment gate looks at the amount only.  Without the internal
    key, a request lacking a proof or an amount header is answered 402
    whatever it asks; with both headers present, two requests that differ
    only in the proof text get the same answer; and an amount text that
    does not read as a number passes the gate like a sufficient amount, so
    the answer is the one an internal request gets. *)
Theorem payment_gate_reads_amount_only
    (env : Env) (reg : Registry) (urls : option (list string)) :
  (forall request,
     isInternalRequest request env = false ->
     JS.truthy_str (x_payment_proof request)
     && JS.truthy_str (x_payment_amount request) = false ->
     reply_status (handleCompare parseFloat request urls env reg) = 402%Z) /\
  (forall key proof proof' amount,
     JS.truthy_str (Some proof) = true ->
     JS.truthy_str (Some proof') = true ->
     handleCompare parseFloat
       {| x_internal_api_key := key; x_payment_proof := Some proof;
          x_payment_amount := Some amount |} urls env reg
     = handleCompare parseFloat
         {| x_internal_api_key := key; x_payment_proof := Some proof';
            x_payment_amount := Some amount |} urls env reg) /\
  (forall request internal proof amount,
     isInternalRequest internal env = true ->
     x_payment_proof request = Some proof ->
     x_payment_amount request = Some amount ->
     JS.truthy_str (Some proof) = true ->
     JS.truthy_str (Some amount) = true ->
     parseFloat amount = NaN ->
     handleCompare parseFloat request urls env reg
     = handleCompare parseFloat internal urls env reg).
Proof.
  split; [|split].
  - intros request Hint Hmiss.
    unfold handleCompare, payment_gate, hasValidPayment.
    rewrite Hint. cbn [negb].
    destruct (x_payment_proof request) as [[|c p]|];
      destruct (x_payment_amount request) as [[|c' a]|];
      cbn in Hmiss |- *; try reflexivity; discriminate Hmiss.
  - intros key proof proof' amount Hp Hp'.
    unfold handleCompare, payment_gate, hasValidPayment, isInternalRequest.
    cbn [x_internal_api_key x_payment_proof x_payment_amount].
    rewrite Hp, Hp'. reflexivity.
  - intros request internal proof amount Hint Hproof Hamount Hp Ha Hnan.
    unfold handleCompare, payment_gate, hasValidPayment.
    rewrite Hint, Hproof, Hamount, Hp, Ha, Hnan.
    cbn [negb orb number_lt].
    destruct (isInternalRequest request env); reflexivity.
Qed.

Lemma reduce_winner_invariant (rest : list ComparisonEntry) :
  forall (pre : list ComparisonEntry) (best : ComparisonEntry)
         (mid : list ComparisonEntry),
    (forall c, In c pre -> c_trust_score c < c_trust_score best) ->
    (forall c, In c mid -> c_trust_score c <= c_trust_score best) ->
    exists pre' mid',
      (pre ++ best :: mid ++ rest
       = pre' ++ reduce_winner best rest :: mid')%list /\
      (forall c, In c pre' ->
                 c_trust_score c < c_trust_score (reduce_winner best rest)) /\
      (forall c, In c mid' ->
                 c_trust_score c <= c_trust_score (reduce_winner best rest)).
Proof.
  induction rest as [|cur rest IH]; intros pre best mid Hpre Hmid.
  - exists pre, mid. rewrite app_nil_r. auto.
  - unfold reduce_winner in *. cbn [fold_left].
    destruct (JS.ltb (c_trust_score best) (c_trust_score cur)) eqn:E.
    + apply ltb_true in E.
      destruct (IH (pre ++ best :: mid)%list cur []) as (pre' & mid' & H & H1 & H2).
      * intros c Hc. apply in_app_or in Hc.
        destruct Hc as [Hc | [<- | Hc]].
        -- specialize (Hpre c Hc). lra.
        -- exact E.
        -- specialize (Hmid c Hc). lra.
      * intros c [].
      * exists pre', mid'. split; [|auto].
        rewrite <- H. rewrite <- !app_assoc. cbn [app]. reflexivity.
    + apply ltb_false in E.
      destruct (IH pre best (mid ++ [cur])%list) as (pre' & mid' & H & H1 & H2).
      * exact Hpre.
      * intros c Hc. apply in_app_or in Hc.
        destruct Hc as [Hc | [<- | []]]; [apply Hmid; exact Hc | exact E].
      * exists pre', mid'. split; [|auto].
        rewrite <- H. rewrite <- !app_assoc. cbn [app]. reflexivity.
Qed.

Lemma compare_entry_url (reg : Registry) (url : string) :
  c_url (compare_entry reg url) = url.
Proof.
  unfold compare_entry.
  destruct (find_endpoint url (endpoints reg)); [|reflexivity].
  destruct (find_trust_score _ _); reflexivity.
Qed.

(** X25.  For two to five URLs behind a passed gate, [handleCompare]
    answers with one entry per URL in the order given, and a winner taken
    from those entries that no entry beats; among entries with the best
    score the winner is the one listed first. *)
Theorem compare_picks_first_best
    (request : Headers) (env : Env) (reg : Registry) (urls : list string) :
  isInternalRequest request env = true ->
  (2 <= List.length urls <= 5)%nat ->
  exists answer,
    handleCompare parseFloat request (Some urls) env reg = Ok answer /\
    map c_url (comparison answer) = urls /\
    comparison answer = map (compare_entry reg) urls /\
    In (winner answer) (comparison answer) /\
    (forall c, In c (comparison answer) ->
               c_trust_score c <= c_trust_score (winner answer)) /\
    exists before after,
      comparison answer = (before ++ winner answer :: after)%list /\
      forall c, In c before ->
                c_trust_score c < c_trust_score (winner answer).
Proof.
  intros Hint [Hlo Hhi].
  unfold handleCompare, payment_gate. rewrite Hint. cbn [negb].
  assert (Hlen : Nat.ltb (List.length urls) 2
                 || Nat.ltb 5 (List.length urls) = false).
  { apply orb_false_iff. split; apply Nat.ltb_ge; lia. }
  rewrite Hlen.
  assert (Hurls : map c_url (map (compare_entry reg) urls) = urls).
  { rewrite map_map. rewrite <- (map_id urls) at 2. apply map_ext.
    intro u. apply compare_entry_url. }
  destruct (map (compare_entry reg) urls) as [|first rest] eqn:E.
  - destruct urls; [cbn in Hlo; lia | discriminate E].
  - eexists. split; [reflexivity|]. cbn [comparison winner].
    destruct (reduce_winner_invariant rest [] first [])
      as (pre & mid & H & Hpre & Hmid); try (intros c []).
    cbn [app] in H.
    split; [exact Hurls|]. split; [reflexivity|]. split; [|split].
    + rewrite H. apply in_or_app. right. left. reflexivity.
    + intros c Hc. rewrite H in Hc. apply in_app_or in Hc.
      destruct Hc as [Hc | [<- | Hc]].
      * specialize (Hpre c Hc). lra.
      * lra.
      * apply Hmid. exact Hc.
    + exists pre, mid. split; [exact H | exact Hpre].
Qed.

(** X26.  [handleCompare] answers 200 only for two to five URLs; a missing
    list, fewer than two or more than five URLs get 400 behind a passed
    gate.  It never answers 404: a URL that is unknown, or known but not
    yet scored, gets a placeholder entry with score 0, grade F and
    AVOID. *)
Theorem compare_validates_count
    (request : Headers) (env : Env) (reg : Registry)
    (urls : option (list string)) :
  (reply_status (handleCompare parseFloat request urls env reg) = 200%Z ->
   exists l, urls = Some l /\ (2 <= List.length l <= 5)%nat) /\
  (isInternalRequest request env = true ->
   (forall l : list string,
      urls = Some l -> (2 <= List.length l <= 5)%nat -> False) ->
   reply_status (handleCompare parseFloat request urls env reg) = 400%Z) /\
  reply_status (handleCompare parseFloat request urls env reg) <> 404%Z /\
  (forall url,
     find_endpoint url (endpoints reg) = None \/
     (exists e, find_endpoint url (endpoints reg) = Some e /\
                find_trust_score (e_id e) (trust_scores reg) = None) ->
     c_url (compare_entry reg url) = url /\
     c_trust_score (compare_entry reg url) = 0 /\
     c_grade (compare_entry reg url) = "F" /\
     c_recommendation (compare_entry reg url) = AVOID).
Proof.
  assert (Hbody : forall l : list string,
             (Nat.ltb (List.length l) 2 || Nat.ltb 5 (List.length l)) = false
             <-> (2 <= List.length l <= 5)%nat).
  { intro l. rewrite orb_false_iff, !Nat.ltb_ge. lia. }
  split; [|split; [|split]].
  - unfold handleCompare, payment_gate.
    destruct (negb (isInternalRequest request env));
      [destruct (negb (hasValidPayment parseFloat request 0.50))|];
      try (cbn; discriminate);
      (destruct urls as [l|]; [|cbn; discriminate];
       destruct (Nat.ltb (List.length l) 2 || Nat.ltb 5 (List.length l)) eqn:E;
       [cbn; discriminate|];
       intros _; exists l; split; [reflexivity | apply Hbody; exact E]).
  - intros Hint Hbad. unfold handleCompare, payment_gate.
    rewrite Hint. cbn [negb].
    destruct urls as [l|]; [|reflexivity].
    destruct (Nat.ltb (List.length l) 2 || Nat.ltb 5 (List.length l)) eqn:E;
      [reflexivity|].
    exfalso. apply (Hbad l eq_refl). apply Hbody. exact E.
  - unfold handleCompare, payment_gate.
    destruct (negb (isInternalRequest request env));
      [destruct (negb (hasValidPayment parseFloat request 0.50))|];
      try (cbn; discriminate);
      (destruct urls as [l|]; [|cbn; discriminate];
       destruct (Nat.ltb (List.length l) 2 || Nat.ltb 5 (List.length l));
       [cbn; discriminate|];
       destruct (map (compare_entry reg) l); cbn; discriminate).
  - intros url [Hnone | (e & He & Hts)]; unfold compare_entry.
    + rewrite Hnone. repeat split.
    + rewrite He, Hts. repeat split.
Qed.

End PublicHandlers.

Lemma saved_score_is_served_witness :
  exists answer,
    handleTrustScore Fixture.parse Fixture.internal (Some Fixture.alpha)
      Fixture.env
      (saveTrustScore
         (calculateTrustScoreForEndpoint (200 * Sample.day) 1
                                         [Sample.unsampled_success])
         Fixture.registry) = Ok answer /\
    tr_age answer == 100.
Proof.
  destruct (saved_score_is_served
              Fixture.parse Fixture.internal Fixture.env Fixture.registry
              Fixture.alpha (Fixture.endpoint 1 Fixture.alpha)
              (calculateTrustScoreForEndpoint (200 * Sample.day) 1
                                              [Sample.unsampled_success])
              eq_refl eq_refl eq_refl eq_refl)
    as (answer & Hok & _ & _ & _ & _ & _ & Hage & _).
  exists answer. split; [exact Hok|].
  rewrite Hage. vm_compute. reflexivity.
Defined.

Lemma payment_gate_reads_amount_only_witness :
  reply_status
    (handleCompare Fixture.parse Fixture.unpaid
       (Some [Fixture.alpha; Fixture.beta]) Fixture.env Fixture.registry)
  = 402%Z /\
  handleCompare Fixture.parse (Fixture.paying "proof" "plenty")
    (Some [Fixture.alpha; Fixture.beta]) Fixture.env Fixture.registry
  = handleCompare Fixture.parse Fixture.internal
      (Some [Fixture.alpha; Fixture.beta]) Fixture.env Fixture.registry.
Proof.
  destruct (payment_gate_reads_amount_only
              Fixture.parse Fixture.env Fixture.registry
              (Some [Fixture.alpha; Fixture.beta]))
    as (Hmissing & _ & Hnan).
  split.
  - apply Hmissing; reflexivity.
  - apply (Hnan (Fixture.paying "proof" "plenty") Fixture.internal
                "proof" "plenty"); reflexivity.
Defined.

Lemma compare_picks_first_best_witness :
  exists answer,
    handleCompare Fixture.parse Fixture.internal
      (Some [Fixture.gamma; Fixture.alpha; Fixture.beta])
      Fixture.env Fixture.registry = Ok answer /\
    c_url (winner answer) = Fixture.alpha.
Proof.
  destruct (compare_picks_first_best
              Fixture.parse Fixture.internal Fixture.env Fixture.registry
              [Fixture.gamma; Fixture.alpha; Fixture.beta] eq_refl)
    as (answer & Hok & _).
  - simpl. lia.
  - exists answer. split; [exact Hok|].
    vm_compute in Hok. injection Hok as <-. reflexivity.
Defined.

Lemma compare_validates_count_witness :
  reply_status
    (handleCompare Fixture.parse Fixture.internal (Some [Fixture.alpha])
                   Fixture.env Fixture.registry) = 400%Z.
Proof.
  destruct (compare_validates_count
              Fixture.parse Fixture.internal Fixture.env Fixture.registry
              (Some [Fixture.alpha])) as (_ & Hbad & _).
  apply Hbad; [reflexivity|].
  intros l Hl. injection Hl as <-. simpl. lia.
Defined.

(** * Discovery: de-duplication and saving *)

Section MapSet.

Context {V : Type}.

Lemma map_set_in (k : string) (v : V) (m : list (string * V)) :
  forall kv, In kv (map_set k v m) -> kv = (k, v) \/ In kv m.
Proof.
  induction m as [|[k0 v0] m IH]; intros kv H; cbn [map_set] in H.
  - destruct H as [<- | []]. left. reflexivity.
  - destruct (String.eqb k0 k).
    + destruct H as [<- | H]; [left; reflexivity | right; right; exact H].
    + destruct H as [<- | H]; [right; left; reflexivity|].
      destruct (IH kv H) as [-> | H']; [left; reflexivity | right; right; exact H'].
Qed.

Lemma map_set_keys (k : string) (v : V) (m : list (string * V)) :
  forall x, In x (map fst (map_set k v m)) <-> x = k \/ In x (map fst m).
Proof.
  induction m as [|[k0 v0] m IH]; intro x; cbn [map_set map fst In].
  - intuition.
  - destruct (String.eqb k0 k) eqn:E; cbn [map fst In].
    + apply String.eqb_eq in E. subst k0. intuition.
    + rewrite IH. intuition.
Qed.

Lemma map_set_NoDup (k : string) (v : V) (m : list (string * V)) :
  NoDup (map fst m) -> NoDup (map fst (map_set k v m)).
Proof.
  induction m as [|[k0 v0] m IH]; intro H; cbn [map_set map fst].
  - constructor; [intros [] | constructor].
  - cbn [map fst] in H. inversion H as [|x xs Hnotin Hnd]; subst.
    destruct (String.eqb k0 k) eqn:E; cbn [map fst].
    + apply String.eqb_eq in E. subst k0. constructor; assumption.
    + constructor; [|apply IH; exact Hnd].
      intro Hin. apply map_set_keys in Hin. destruct Hin as [-> | Hin].
      * rewrite String.eqb_refl in E. discriminate E.
      * contradiction.
Qed.

Lemma map_set_has (k : string) (v : V) (m : list (string * V)) :
  In (k, v) (map_set k v m).
Proof.
  induction m as [|[k0 v0] m IH]; cbn [map_set]; [left; reflexivity|].
  destruct (String.eqb k0 k); [left; reflexivity | right; exact IH].
Qed.

Lemma map_set_keeps (k k' : string) (v v' : V) (m : list (string * V)) :
  k' <> k -> In (k, v) m -> In (k, v) (map_set k' v' m).
Proof.
  intro Hne. induction m as [|[k0 v0] m IH]; intro H; [contradiction|].
  cbn [map_set]. destruct (String.eqb k0 k') eqn:E.
  - apply String.eqb_eq in E. subst k0.
    destruct H as [H | H]; [congruence | right; exact H].
  - destruct H as [H | H]; [left; exact H | right; apply IH; exact H].
Qed.

Lemma map_set_length (k : string) (v : V) (m : list (string * V)) :
  (List.length (map_set k v m) <= S (List.length m))%nat.
Proof.
  induction m as [|[k0 v0] m IH]; cbn [map_set List.length]; [lia|].
  destruct (String.eqb k0 k); cbn [List.length]; lia.
Qed.

End MapSet.

(** The map built from the discoveries read so far. *)
Lemma url_map_invariant (all : list DiscoveryResult) :
  forall m0 : list (string * DiscoveryResult),
    NoDup (map fst m0) ->
    Forall (fun kv => fst kv = r_url (snd kv)) m0 ->
    let m := fold_left (fun m d => map_set (r_url d) d m) all m0 in
    NoDup (map fst m) /\
    Forall (fun kv => fst kv = r_url (snd kv)) m /\
    (forall kv, In kv m -> In kv m0 \/ In (snd kv) all) /\
    (forall d, In d all -> In (r_url d) (map fst m)) /\
    (forall x, In x (map fst m0) -> In x (map fst m)) /\
    (List.length m <= List.length m0 + List.length all)%nat.
Proof.
  induction all as [|d all IH]; intros m0 Hnd Hkeys; cbv zeta.
  - cbn [fold_left]. repeat split; auto.
    + intros d [].
    + cbn [List.length]. lia.
  - cbn [fold_left].
    assert (Hkeys' : Forall (fun kv => fst kv = r_url (snd kv))
                            (map_set (r_url d) d m0)).
    { apply Forall_forall. intros kv Hin.
      destruct (map_set_in _ _ _ kv Hin) as [-> | Hin']; [reflexivity|].
      exact (proj1 (Forall_forall _ _) Hkeys kv Hin'). }
    destruct (IH (map_set (r_url d) d m0) (map_set_NoDup _ _ _ Hnd) Hkeys')
      as (H1 & H2 & H3 & H4 & H5 & H6).
    split; [exact H1|]. split; [exact H2|]. split; [|split; [|split]].
    + intros kv Hin. destruct (H3 kv Hin) as [Hin' | Hin'].
      * destruct (map_set_in _ _ _ kv Hin') as [-> | Hin''];
          [right; left; reflexivity | left; exact Hin''].
      * right. right. exact Hin'.
    + intros d' [<- | Hin].
      * apply H5. apply map_set_keys. left. reflexivity.
      * apply H4. exact Hin.
    + intros x Hx. apply H5. apply map_set_keys. right. exact Hx.
    + pose proof (map_set_length (r_url d) d m0). cbn [List.length]. lia.
Qed.

Lemma url_map_keeps_last (post : list DiscoveryResult) (d : DiscoveryResult) :
  forall m0 : list (string * DiscoveryResult),
    In (r_url d, d) m0 ->
    (forall d', In d' post -> r_url d' <> r_url d) ->
    In (r_url d, d) (fold_left (fun m d => map_set (r_url d) d m) post m0).
Proof.
  induction post as [|p post IH]; intros m0 Hin Hne; [exact Hin|].
  cbn [fold_left]. apply IH.
  - apply map_set_keeps; [|exact Hin]. apply Hne. left. reflexivity.
  - intros d' Hd'. apply Hne. right. exact Hd'.
Qed.

Lemma urls_of_map (m : list (string * DiscoveryResult)) :
  Forall (fun kv => fst kv = r_url (snd kv)) m ->
  map r_url (map snd m) = map fst m.
Proof.
  intro H. induction H as [|kv m Hkv _ IH]; [reflexivity|].
  cbn [map]. rewrite IH, Hkv. reflexivity.
Qed.

(** X28.  De-duplication by URL keeps one discovery per URL: the result
    has no repeated URL, holds only discoveries that were found, has an
    entry for every URL that was found, and is no longer than the input;
    for a URL found several times the last discovery is the one kept. *)
Theorem uniqueDiscoveries_one_per_url (all : list DiscoveryResult) :
  NoDup (map r_url (uniqueDiscoveries all)) /\
  (forall d, In d (uniqueDiscoveries all) -> In d all) /\
  (forall d, In d all -> In (r_url d) (map r_url (uniqueDiscoveries all))) /\
  (List.length (uniqueDiscoveries all) <= List.length all)%nat /\
  (forall pre d post,
     all = (pre ++ d :: post)%list ->
     (forall d', In d' post -> r_url d' <> r_url d) ->
     In d (uniqueDiscoveries all)).
Proof.
  destruct (url_map_invariant all [] (NoDup_nil _) (Forall_nil _))
    as (H1 & H2 & H3 & H4 & _ & H6).
  unfold uniqueDiscoveries. rewrite (urls_of_map _ H2).
  split; [exact H1|]. split; [|split; [|split]].
  - intros d Hd. apply in_map_iff in Hd. destruct Hd as (kv & <- & Hin).
    destruct (H3 kv Hin) as [[] | Hin']. exact Hin'.
  - exact H4.
  - rewrite length_map. cbn [List.length] in H6. lia.
  - intros pre d post -> Hne. rewrite fold_left_app. cbn [fold_left].
    apply in_map_iff. exists (r_url d, d). split; [reflexivity|].
    apply url_map_keeps_last; [apply map_set_has | exact Hne].
Qed.

Lemma uniqueDiscoveries_one_per_url_witness :
  In {| r_url := Fixture.alpha; r_name := "second"; r_description := None;
        r_author := None; r_organization := None; r_source := "github" |}
     (uniqueDiscoveries
        [{| r_url := Fixture.alpha; r_name := "first"; r_description := None;
            r_author := None; r_organization := None;
            r_source := "seed_list" |};
         {| r_url := Fixture.beta; r_name := "other"; r_description := None;
            r_author := None; r_organization := None;
            r_source := "seed_list" |};
         {| r_url := Fixture.alpha; r_name := "second"; r_description := None;
            r_author := None; r_organization := None;
            r_source := "github" |}]).
Proof.
  destruct (uniqueDiscoveries_one_per_url
              [{| r_url := Fixture.alpha; r_name := "first";
                  r_description := None; r_author := None;
                  r_organization := None; r_source := "seed_list" |};
               {| r_url := Fixture.beta; r_name := "other";
                  r_description := None; r_author := None;
                  r_organization := None; r_source := "seed_list" |};
               {| r_url := Fixture.alpha; r_name := "second";
                  r_description := None; r_author := None;
                  r_organization := None; r_source := "github" |}])
    as (_ & _ & _ & _ & Hlast).
  apply (Hlast
           [{| r_url := Fixture.alpha; r_name := "first";
               r_description := None; r_author := None;
               r_organization := None; r_source := "seed_list" |};
            {| r_url := Fixture.beta; r_name := "other";
               r_description := None; r_author := None;
               r_organization := None; r_source := "seed_list" |}]
           _ []).
  - reflexivity.
  - intros d' [].
Defined.

Lemma find_endpoint_map (url : string) (g : Endpoint -> Endpoint)
    (rows : list Endpoint) :
  (forall e, e_url (g e) = e_url e) ->
  find_endpoint url (map g rows) = option_map g (find_endpoint url rows).
Proof.
  intro Hg. unfold find_endpoint.
  induction rows as [|e rows IH]; [reflexivity|].
  cbn [map find]. rewrite Hg.
  destruct (String.eqb (e_url e) url); [reflexivity | exact IH].
Qed.

Lemma find_endpoint_app (url : string) (l1 l2 : list Endpoint) :
  find_endpoint url (l1 ++ l2)
  = match find_endpoint url l1 with
    | Some e => Some e
    | None => find_endpoint url l2
    end.
Proof.
  unfold find_endpoint. induction l1 as [|e l1 IH]; [reflexivity|].
  cbn [app find]. destruct (String.eqb (e_url e) url); [reflexivity | exact IH].
Qed.

Lemma find_endpoint_none (url : string) (rows : list Endpoint) :
  find_endpoint url rows = None -> ~ In url (map e_url rows).
Proof.
  unfold find_endpoint. intros H Hin. apply in_map_iff in Hin.
  destruct Hin as (e & He & Hin).
  pose proof (find_none _ _ H e Hin) as Hf. cbn in Hf.
  rewrite He, String.eqb_refl in Hf. discriminate Hf.
Qed.

Lemma mark_seen_url (now : Z) (url : string) (e : Endpoint) :
  e_url (if String.eqb (e_url e) url then mark_seen now e else e) = e_url e.
Proof. destruct (String.eqb (e_url e) url); reflexivity. Qed.

(** What one turn of the loop keeps. *)
Lemma save_discovery_step
    (now : Z) (d : DiscoveryResult) (count : Z) (reg : Registry) :
  let state := save_discovery now d (count, reg) in
  (NoDup (map e_url (endpoints reg)) ->
   NoDup (map e_url (endpoints (snd state)))) /\
  Z.of_nat (List.length (endpoints (snd state)))
  = (Z.of_nat (List.length (endpoints reg)) + (fst state - count))%Z /\
  (exists added,
     map (fun e => (e_id e, e_url e, e_name e)) (endpoints (snd state))
     = (map (fun e => (e_id e, e_url e, e_name e)) (endpoints reg)
        ++ added)%list) /\
  seen_at now (r_url d) (endpoints (snd state)) /\
  (forall url, seen_at now url (endpoints reg) ->
               seen_at now url (endpoints (snd state))) /\
  (forall url, find_endpoint url (endpoints reg) <> None ->
               find_endpoint url (endpoints (snd state)) <> None) /\
  (find_endpoint (r_url d) (endpoints reg) <> None -> fst state = count) /\
  endpoint_tests (snd state) = endpoint_tests reg /\
  trust_scores (snd state) = trust_scores reg.
Proof.
  cbv zeta. unfold save_discovery, seen_at.
  destruct (find_endpoint (r_url d) (endpoints reg)) as [old|] eqn:E;
    cbn [fst snd endpoints endpoint_tests trust_scores].
  - split; [|split; [|split; [|split; [|split; [|split; [|split]]]]]].
    + intro Hnd. rewrite map_map.
      rewrite (map_ext _ e_url (mark_seen_url now (r_url d))). exact Hnd.
    + rewrite length_map. lia.
    + exists []. rewrite app_nil_r, map_map. apply map_ext. intro e.
      destruct (String.eqb (e_url e) (r_url d)); reflexivity.
    + rewrite find_endpoint_map by apply mark_seen_url.
      rewrite E. cbn [option_map].
      assert (Hu : String.eqb (e_url old) (r_url d) = true).
      { unfold find_endpoint in E. apply find_some in E. apply E. }
      rewrite Hu. eexists. split; [reflexivity|]. split; reflexivity.
    + intros url (e & He & Ha & Hs).
      rewrite find_endpoint_map by apply mark_seen_url.
      rewrite He. cbn [option_map]. eexists. split; [reflexivity|].
      destruct (String.eqb (e_url e) (r_url d)); [split; reflexivity|].
      split; assumption.
    + intros url Hsome.
      rewrite find_endpoint_map by apply mark_seen_url.
      destruct (find_endpoint url (endpoints reg)); [discriminate | congruence].
    + reflexivity.
    + split; reflexivity.
  - split; [|split; [|split; [|split; [|split; [|split; [|split]]]]]].
    + intro Hnd. rewrite map_app. cbn [map e_url].
      apply NoDup_app_iff_snoc; [exact Hnd|].
      apply find_endpoint_none. exact E.
    + rewrite length_app. cbn [List.length]. lia.
    + eexists. rewrite map_app. reflexivity.
    + rewrite find_endpoint_app, E. unfold find_endpoint. cbn [find e_url].
      rewrite String.eqb_refl. eexists. split; [reflexivity|].
      split; reflexivity.
    + intros url (e & He & Ha & Hs). rewrite find_endpoint_app, He.
      exists e. auto.
    + intros url Hsome. rewrite find_endpoint_app.
      destruct (find_endpoint url (endpoints reg)); [discriminate | congruence].
    + intro H. congruence.
    + split; reflexivity.
Qed.

Lemma saveDiscoveredEndpoints_from
    (now : Z) (discoveries : list DiscoveryResult) :
  forall (count : Z) (reg : Registry),
    let state :=
      fold_left (fun state d => save_discovery now d state) discoveries
                (count, reg) in
    (NoDup (map e_url (endpoints reg)) ->
     NoDup (map e_url (endpoints (snd state)))) /\
    Z.of_nat (List.length (endpoints (snd state)))
    = (Z.of_nat (List.length (endpoints reg)) + (fst state - count))%Z /\
    (exists added,
       map (fun e => (e_id e, e_url e, e_name e)) (endpoints (snd state))
       = (map (fun e => (e_id e, e_url e, e_name e)) (endpoints reg)
          ++ added)%list) /\
    (forall d, In d discoveries ->
               seen_at now (r_url d) (endpoints (snd state))) /\
    (forall url, seen_at now url (endpoints reg) ->
                 seen_at now url (endpoints (snd state))) /\
    (forall url, find_endpoint url (endpoints reg) <> None ->
                 find_endpoint url (endpoints (snd state)) <> None) /\
    ((forall d, In d discoveries ->
                find_endpoint (r_url d) (endpoints reg) <> None) ->
     fst state = count) /\
    endpoint_tests (snd state) = endpoint_tests reg /\
    trust_scores (snd state) = trust_scores reg.
Proof.
  induction discoveries as [|d discoveries IH]; intros count reg; cbv zeta.
  - cbn [fold_left fst snd].
    split; [auto|]. split; [lia|].
    split; [exists []; rewrite app_nil_r; reflexivity|].
    split; [intros d []|]. repeat split; auto.
  - cbn [fold_left].
    destruct (save_discovery now d (count, reg)) as [count1 reg1] eqn:E.
    pose proof (save_discovery_step now d count reg) as Hstep.
    cbv zeta in Hstep. rewrite E in Hstep. cbn [fst snd] in Hstep.
    destruct Hstep as (S1 & S2 & (add1 & S3) & S4 & S5 & S6 & S7 & S8 & S9).
    specialize (IH count1 reg1). cbv zeta in IH.
    destruct IH as (I1 & I2 & (add2 & I3) & I4 & I5 & I6 & I7 & I8 & I9).
    split; [auto|]. split; [lia|].
    split; [exists (add1 ++ add2)%list; rewrite I3, S3, app_assoc; reflexivity|].
    split; [|split; [|split; [|split]]].
    + intros d' [<- | Hd']; [apply I5; exact S4 | apply I4; exact Hd'].
    + intros url H. apply I5. apply S5. exact H.
    + intros url H. apply I6. apply S6. exact H.
    + intro Hall. rewrite I7.
      * apply S7. apply Hall. left. reflexivity.
      * intros d' Hd'. apply S6. apply Hall. right. exact Hd'.
    + split; congruence.
Qed.

Lemma save_count_bounds (now : Z) (discoveries : list DiscoveryResult) :
  forall (count : Z) (reg : Registry),
    (count
     <= fst (fold_left (fun state d => save_discovery now d state)
                       discoveries (count, reg))
     <= count + Z.of_nat (List.length discoveries))%Z.
Proof.
  induction discoveries as [|d l IH]; intros count reg.
  - cbn. lia.
  - cbn [fold_left].
    destruct (save_discovery now d (count, reg)) as [c1 r1] eqn:Es.
    specialize (IH c1 r1).
    assert (Hc : (count <= c1 <= count + 1)%Z).
    { unfold save_discovery in Es.
      destruct (find_endpoint _ _); injection Es as <- _; lia. }
    cbn [List.length]. rewrite Nat2Z.inj_succ. lia.
Qed.

(** X29.  Saving discoveries never duplicates or loses an endpoint.  If no
    URL is repeated in the table, none is after [saveDiscoveredEndpoints],
    even when a URL is discovered twice; the endpoints that were there keep
    their place, id, URL and name; the count returned is the number of rows
    added; every discovered URL is then present, active and last seen at
    the time of the run; and the test and score tables are untouched. *)
Theorem saveDiscoveredEndpoints_upserts
    (now : Z) (discoveries : list DiscoveryResult) (reg : Registry) :
  let count := fst (saveDiscoveredEndpoints now discoveries reg) in
  let reg' := snd (saveDiscoveredEndpoints now discoveries reg) in
  (NoDup (map e_url (endpoints reg)) -> NoDup (map e_url (endpoints reg'))) /\
  Z.of_nat (List.length (endpoints reg'))
  = (Z.of_nat (List.length (endpoints reg)) + count)%Z /\
  (exists added,
     map (fun e => (e_id e, e_url e, e_name e)) (endpoints reg')
     = (map (fun e => (e_id e, e_url e, e_name e)) (endpoints reg)
        ++ added)%list) /\
  (forall d, In d discoveries ->
             exists e, find_endpoint (r_url d) (endpoints reg') = Some e
                       /\ e_is_active e = true /\ e_last_seen_at e = now) /\
  endpoint_tests reg' = endpoint_tests reg /\
  trust_scores reg' = trust_scores reg.
Proof.
  cbv zeta. unfold saveDiscoveredEndpoints.
  destruct (saveDiscoveredEndpoints_from now discoveries 0 reg)
    as (H1 & H2 & H3 & H4 & _ & _ & _ & H8 & H9).
  unfold seen_at in H4.
  split; [exact H1|]. split; [lia|]. split; [exact H3|].
  split; [exact H4|]. split; assumption.
Qed.

Lemma saveDiscoveredEndpoints_upserts_witness :
  NoDup (map e_url
           (endpoints
              (snd (saveDiscoveredEndpoints 1700000000
                      [{| r_url := Fixture.gamma; r_name := "gamma";
                          r_description := None; r_author := None;
                          r_organization := None; r_source := "github" |};
                       {| r_url := Fixture.alpha; r_name := "renamed";
                          r_description := None; r_author := None;
                          r_organization := None; r_source := "github" |};
                       {| r_url := Fixture.gamma; r_name := "again";
                          r_description := None; r_author := None;
                          r_organization := None; r_source := "seed_list" |}]
                      Fixture.registry)))).
Proof.
  apply (saveDiscoveredEndpoints_upserts 1700000000 _ Fixture.registry).
  repeat constructor; simpl; intuition discriminate.
Defined.

(** X30.  A discovery run reports the number of distinct URLs found and
    the number of new endpoints, which is never more than the former.  Run
    again on the same findings, it adds nothing: the second run reports 0
    new endpoints and leaves the number of endpoints unchanged. *)
Theorem runDiscovery_repeat
    (now1 now2 : Z) (seed eco github : list DiscoveryResult)
    (reg : Registry) :
  let first := runDiscovery now1 seed eco github reg in
  let second := runDiscovery now2 seed eco github (snd first) in
  fst (fst first)
  = Z.of_nat (List.length (uniqueDiscoveries (seed ++ eco ++ github))) /\
  (0 <= snd (fst first) <= fst (fst first))%Z /\
  fst second = (fst (fst first), 0%Z) /\
  List.length (endpoints (snd second)) = List.length (endpoints (snd first)).
Proof.
  cbv zeta. unfold runDiscovery. cbv zeta.
  set (unique := uniqueDiscoveries (seed ++ eco ++ github)).
  unfold saveDiscoveredEndpoints.
  destruct (saveDiscoveredEndpoints_from now1 unique 0 reg)
    as (_ & A2 & _ & A4 & _ & _ & _ & _ & _).
  destruct (fold_left _ unique (0%Z, reg)) as [count1 reg1] eqn:E1.
  cbn [fst snd] in *.
  destruct (saveDiscoveredEndpoints_from now2 unique 0 reg1)
    as (_ & B2 & _ & _ & _ & _ & B7 & _ & _).
  destruct (fold_left _ unique (0%Z, reg1)) as [count2 reg2] eqn:E2.
  cbn [fst snd] in *.
  assert (Hzero : count2 = 0%Z).
  { apply B7. intros d Hd. destruct (A4 d Hd) as (e & He & _).
    cbn [snd] in He.
    rewrite He. discriminate. }
  subst count2.
  assert (Hbound : (0 <= count1 <= Z.of_nat (List.length unique))%Z).
  { pose proof (save_count_bounds now1 unique 0 reg) as Hb.
    rewrite E1 in Hb. cbn [fst] in Hb. lia. }
  split; [reflexivity|]. split; [exact Hbound|].
  split; [reflexivity|]. lia.
Qed.

